(** * Avify backend: the sniff-then-reassemble conversion pipeline

    A shallow embedding of [src/server.js] and of its earlier single-route
    variant, and the properties of the pipeline proved on it.

    Layout: JavaScript strings and buffers, Node's [Readable] and
    [PassThrough] streams, the monad the asynchronous route handlers run in,
    the utilities both files share ([readHead], [detectMagic],
    [applyOutputFormat], [contentTypeForFormat], [isAllowedFormat]), the two
    [/convert] handlers, the other utilities of [server.js]
    ([normalizeOrigin], [buildPublicId], [buildTransformedUrls]), its two
    upload routes, and then the lemmas. *)

From Stdlib Require Import NArith Strings.Byte DecimalString.
From stdpp Require Import base decidable option numbers list strings gmap.

Set Default Proof Using "Type".

(* ===================================================================== *)
(** * JavaScript strings and Node buffers *)
(* ===================================================================== *)

(** A JavaScript string is a sequence of UTF-16 code units. *)
Abbreviation jsstring := (list N).

(** String literals of the source are ASCII; [js "png"] is the literal. *)
Definition js (s : string) : jsstring :=
  (λ a, Ascii.N_of_ascii a) <$> String.list_ascii_of_string s.
Arguments js _%_string.

(** A [Buffer] is a sequence of bytes. *)
Abbreviation Buffer := (list Byte.byte).

#[global] Instance byte_eq_dec : EqDecision Byte.byte := Byte.byte_eq_dec.

Module JS.

(** [a === b] on strings. *)
Definition eqs (a b : jsstring) : bool := bool_decide (a = b).

(** [x.slice(a, b)], for [0 <= a <= b]: indices past the end are clamped. *)
Definition slice {A} (a b : nat) (x : list A) : list A :=
  take (b - a) (drop a x).

(** [s.startsWith(p)]. *)
Definition startsWith (p s : jsstring) : bool :=
  bool_decide (take (length p) s = p).

(** [s.includes(p)]: [p] occurs in [s] at some offset. *)
Fixpoint includes (p s : jsstring) : bool :=
  startsWith p s ||
  match s with
  | [] => false
  | _ :: s' => includes p s'
  end.

(** [s.toLowerCase()], one code unit at a time.  The table covers Basic
    Latin, the Latin-1 capitals and the characters whose lower case lies
    outside their own block (U+0130 becomes "i" followed by U+0307, the
    Kelvin sign becomes "k", the Angstrom sign becomes U+00E5); every
    other code unit is left as it is. *)
Definition toLowerCase_unit (c : N) : jsstring :=
  if (0x41 <=? c)%N && (c <=? 0x5A)%N then [(c + 32)%N]
  else if (0xC0 <=? c)%N && (c <=? 0xDE)%N && negb (c =? 0xD7)%N
       then [(c + 32)%N]
  else if (c =? 0x130)%N then [0x69%N; 0x307%N]
  else if (c =? 0x212A)%N then [0x6B%N]
  else if (c =? 0x212B)%N then [0xE5%N]
  else [c].

Definition toLowerCase (s : jsstring) : jsstring :=
  s ≫= toLowerCase_unit.

(** [Array.prototype.join(',')], which is what [toString()] is on an
    array of strings. *)
Fixpoint join (l : list jsstring) : jsstring :=
  match l with
  | [] => []
  | [s] => s
  | s :: rest => s ++ js "," ++ join rest
  end.

(** [a.equals(b)] on buffers. *)
Definition equals (a b : Buffer) : bool := bool_decide (a = b).

(** [buf[i] === v] for a number [v]: an index past the end reads
    [undefined], which is equal to no number. *)
Definition byte_is (buf : Buffer) (i : nat) (v : N) : bool :=
  match buf !! i with
  | Some b => (Byte.to_N b =? v)%N
  | None => false
  end.

(** [buf.toString('ascii')]: Node clears the highest bit of every byte
    and reads the result as Latin-1. *)
Definition toString_ascii (buf : Buffer) : jsstring :=
  (λ b, N.land (Byte.to_N b) 0x7F) <$> buf.

(** [buf.toString('utf8')].  The decoder keeps, while it is inside a
    multi-byte sequence, the bits read so far, the number of
    continuation bytes still expected and the range allowed for the next
    one.  An ill-formed sequence yields U+FFFD and the offending byte is
    read again as the start of a new sequence. *)
Record Utf8Pending := {
  u_cp : N;
  u_needed : nat;
  u_lower : N;
  u_upper : N
}.

Definition utf8_lead (b : N) : list N * option Utf8Pending :=
  if (b <=? 0x7F)%N then ([b], None)
  else if (0xC2 <=? b)%N && (b <=? 0xDF)%N then
    ([], Some {| u_cp := N.land b 0x1F; u_needed := 1;
                 u_lower := 0x80; u_upper := 0xBF |})
  else if (0xE0 <=? b)%N && (b <=? 0xEF)%N then
    ([], Some {| u_cp := N.land b 0xF; u_needed := 2;
                 u_lower := if (b =? 0xE0)%N then 0xA0 else 0x80;
                 u_upper := if (b =? 0xED)%N then 0x9F else 0xBF |})
  else if (0xF0 <=? b)%N && (b <=? 0xF4)%N then
    ([], Some {| u_cp := N.land b 0x7; u_needed := 3;
                 u_lower := if (b =? 0xF0)%N then 0x90 else 0x80;
                 u_upper := if (b =? 0xF4)%N then 0x8F else 0xBF |})
  else ([0xFFFD%N], None).

Fixpoint utf8_decode (st : option Utf8Pending) (bs : Buffer) : list N :=
  match bs with
  | [] => match st with None => [] | Some _ => [0xFFFD%N] end
  | b :: rest =>
    let n := Byte.to_N b in
    match st with
    | None =>
      let '(out, st') := utf8_lead n in out ++ utf8_decode st' rest
    | Some s =>
      if (u_lower s <=? n)%N && (n <=? u_upper s)%N then
        let cp := N.lor (N.shiftl (u_cp s) 6) (N.land n 0x3F) in
        match u_needed s with
        | S (S k) =>
          utf8_decode (Some {| u_cp := cp; u_needed := S k;
                               u_lower := 0x80; u_upper := 0xBF |}) rest
        | _ => cp :: utf8_decode None rest
        end
      else
        let '(out, st') := utf8_lead n in
        0xFFFD%N :: out ++ utf8_decode st' rest
    end
  end.

(** A code point as UTF-16 code units. *)
Definition utf16_units (cp : N) : jsstring :=
  if (cp <? 0x10000)%N then [cp]
  else
    let c := (cp - 0x10000)%N in
    [(0xD800 + N.shiftr c 10)%N; (0xDC00 + N.land c 0x3FF)%N].

Definition toString_utf8 (buf : Buffer) : jsstring :=
  utf8_decode None buf ≫= utf16_units.

End JS.

(* ===================================================================== *)
(** * File signature detection (magic bytes) *)
(* ===================================================================== *)

Record MagicSignature := {
  valid : bool;
  kind : jsstring
}.

Definition PNG_SIGNATURE : Buffer :=
  [Byte.x89; Byte.x50; Byte.x4e; Byte.x47;
   Byte.x0d; Byte.x0a; Byte.x1a; Byte.x0a].

Definition detectMagic (buffer : Buffer) : MagicSignature :=
  let header := JS.slice 0 12 buffer in
  let ascii := JS.toString_ascii header in
  let utf8 := JS.toLowerCase (JS.toString_utf8 buffer) in
  if bool_decide (8 ≤ length buffer)
     && JS.equals (JS.slice 0 8 buffer) PNG_SIGNATURE
  then {| valid := true; kind := js "png" |}
  else if bool_decide (3 ≤ length buffer)
          && JS.byte_is buffer 0 0xff
          && JS.byte_is buffer 1 0xd8
          && JS.byte_is buffer 2 0xff
  then {| valid := true; kind := js "jpeg" |}
  else if JS.startsWith (js "RIFF") ascii
          && JS.eqs (JS.slice 8 12 ascii) (js "WEBP")
  then {| valid := true; kind := js "webp" |}
  else if JS.includes (js "ftypavif") (JS.slice 4 12 ascii)
          || JS.includes (js "ftypavis") (JS.slice 4 12 ascii)
  then {| valid := true; kind := js "avif" |}
  else if JS.startsWith (js "GIF87a") ascii
          || JS.startsWith (js "GIF89a") ascii
  then {| valid := true; kind := js "gif" |}
  else if JS.includes (js "<svg") utf8
  then {| valid := true; kind := js "svg" |}
  else {| valid := false; kind := js "unknown" |}.

(* ===================================================================== *)
(** * Node streams *)
(* ===================================================================== *)

(** The uploaded file as a [Readable] in paused mode.  [buffered] is the
    internal buffer, [upcoming] the chunks the multipart parser has still to
    push, in order; once they are all pushed the parser pushes the end of
    the stream ([ended]).  Every source is finite: its bytes are [buffered]
    followed by [upcoming].

    Node emits ['end'] on a later turn of the event loop than the [read()]
    that found the stream finished and empty: that [read()] only schedules
    it ([endScheduled]).  [readableEnded] is true once ['end'] has been
    emitted ([endEmitted]).  ['close'] is emitted once, by the first
    [destroy()]. *)
Record Readable := mkReadable {
  buffered : Buffer;
  upcoming : list Buffer;
  ended : bool;
  endScheduled : bool;
  endEmitted : bool;
  flowing : option bool;
  destroyed : bool;
  closeEmitted : nat
}.

(** [new PassThrough()]: what was written to it, in order, is what its
    reader gets. *)
Record PassThrough := mkPassThrough {
  written : Buffer;
  finished : bool;
  pt_destroyed : bool;
  pt_closeEmitted : nat
}.

Module Stream.

Definition set_buffered (b : Buffer) (s : Readable) : Readable :=
  mkReadable b (upcoming s) (ended s) (endScheduled s) (endEmitted s)
             (flowing s) (destroyed s) (closeEmitted s).

Definition set_endScheduled (s : Readable) : Readable :=
  mkReadable (buffered s) (upcoming s) (ended s) true (endEmitted s)
             (flowing s) (destroyed s) (closeEmitted s).

Definition set_flowing (f : bool) (s : Readable) : Readable :=
  mkReadable (buffered s) (upcoming s) (ended s) (endScheduled s)
             (endEmitted s) (Some f) (destroyed s) (closeEmitted s).

(** [stream.read(n)]: [n] bytes when the buffer holds them; when it holds
    fewer, [null] unless the stream has ended, in which case all that is
    left is returned.  Reading past the end of an ended stream schedules
    ['end']. *)
Definition read (n : nat) (s : Readable) : option Buffer * Readable :=
  if bool_decide (n = 0) then (None, s)
  else if bool_decide (n ≤ length (buffered s)) then
    (Some (take n (buffered s)), set_buffered (drop n (buffered s)) s)
  else if ended s then
    match buffered s with
    | [] => (None, set_endScheduled s)
    | b => (Some b, set_endScheduled (set_buffered [] s))
    end
  else (None, s).

(** [stream.readableEnded]. *)
Definition readableEnded (s : Readable) : bool := endEmitted s.

(** What is due on the next turn of the event loop: a scheduled ['end']
    is emitted. *)
Definition tick (s : Readable) : Readable :=
  mkReadable (buffered s) (upcoming s) (ended s) (endScheduled s)
             (endEmitted s || endScheduled s)
             (flowing s) (destroyed s) (closeEmitted s).

(** The parser pushes its next chunk, or the end of the stream. *)
Definition push_next (s : Readable) : Readable :=
  match upcoming s with
  | c :: rest =>
    mkReadable (buffered s ++ c) rest (ended s) (endScheduled s)
               (endEmitted s) (flowing s) (destroyed s) (closeEmitted s)
  | [] =>
    mkReadable (buffered s) [] true (endScheduled s)
               (endEmitted s) (flowing s) (destroyed s) (closeEmitted s)
  end.

(** [await once(stream, 'readable')].  ['readable'] is emitted when the
    parser pushes, a chunk or the end of the stream.  After the end has
    been pushed nothing is pushed again and ['readable'] is not emitted
    again: the promise is never settled ([None]).

    Node also calls a ['readable'] listener that is added while bytes are
    buffered, on the next tick and before any push.  A loop that reads,
    finds too few bytes and waits again can so spin in Node without a push
    ever coming in.  The function gives the stream as the next push leaves
    it, which is the most such a loop can get to see: a loop that returns
    in Node returns here, with the same bytes, and a loop that does not
    return here does not return in Node.  That a loop returns is stated
    below only where it finds its bytes in the buffer and waits for
    nothing. *)
Definition once_readable (s : Readable) : option Readable :=
  let s := tick s in
  if ended s || destroyed s then None else Some (push_next s).

(** [stream.destroy()]: nothing on a stream already destroyed. *)
Definition destroy (s : Readable) : Readable :=
  if destroyed s then s
  else mkReadable (buffered s) (upcoming s) (ended s) (endScheduled s)
                  (endEmitted s) (flowing s) true (S (closeEmitted s)).

Definition pt_new : PassThrough := mkPassThrough [] false false 0.

(** [body.write(chunk)]. *)
Definition pt_write (c : Buffer) (p : PassThrough) : PassThrough :=
  if pt_destroyed p || finished p then p
  else mkPassThrough (written p ++ c) (finished p) (pt_destroyed p)
                     (pt_closeEmitted p).

(** [body.end()]. *)
Definition pt_end (p : PassThrough) : PassThrough :=
  if pt_destroyed p then p
  else mkPassThrough (written p) true (pt_destroyed p) (pt_closeEmitted p).

Definition pt_destroy (p : PassThrough) : PassThrough :=
  if pt_destroyed p then p
  else mkPassThrough (written p) (finished p) true (S (pt_closeEmitted p)).

(** All the bytes a source has still to deliver. *)
Definition remaining (s : Readable) : Buffer :=
  buffered s ++ concat (upcoming s).

End Stream.

(** The two streams of one request.  [piped] records
    [sourceStream.pipe(bodyStream)]. *)
Record Streams := mkStreams {
  sourceStream : Readable;
  bodyStream : option PassThrough;
  piped : bool
}.

Module Pipe.

(** One turn of a flowing, piped source: what is buffered goes to the
    destination, and at the end of the source the destination is ended
    ([pipe] is called without [end: false]). *)
Definition flow_turn (st : Streams) : Streams :=
  let s := sourceStream st in
  match bodyStream st with
  | Some p =>
    if piped st && bool_decide (flowing s = Some true) && negb (destroyed s)
    then
      let p' := Stream.pt_write (buffered s) p in
      let s' := Stream.set_buffered [] s in
      if ended s' then
        mkStreams (Stream.tick (Stream.set_endScheduled s'))
                  (Some (Stream.pt_end p')) (piped st)
      else mkStreams s' (Some p') (piped st)
    else st
  | None => st
  end.

(** The parser pushes and the source flows. *)
Definition turn (st : Streams) : Streams :=
  let s := sourceStream st in
  if ended s || destroyed s then st
  else flow_turn (mkStreams (Stream.push_next s) (bodyStream st) (piped st)).

(** The request runs until the parser has pushed everything. *)
Definition run_to_end (st : Streams) : Streams :=
  Nat.iter (S (length (upcoming (sourceStream st)))) turn (flow_turn st).

(** The bytes the reader of the body stream gets. *)
Definition delivered (st : Streams) : Buffer :=
  match bodyStream st with
  | Some p => written p
  | None => []
  end.

End Pipe.

(* ===================================================================== *)
(** * Requests, replies and the handler monad *)
(* ===================================================================== *)

(** A value of the parsed query string: a string, or, for a key given more
    than once, the array of its values. *)
Inductive QVal :=
| QStr (s : jsstring)
| QArr (first second : jsstring) (rest : list jsstring).

Record Request := {
  query : option (gmap string QVal)
}.

(** [request.query?.key]. *)
Definition query_get (request : Request) (key : string) : option QVal :=
  query request ≫= (λ q, q !! key).

Module QVal.

(** The empty string is the one falsy value a query key can have. *)
Definition truthy (v : QVal) : bool :=
  match v with
  | QStr [] => false
  | _ => true
  end.

Definition toString (v : QVal) : jsstring :=
  match v with
  | QStr s => s
  | QArr a b rest => JS.join (a :: b :: rest)
  end.

End QVal.

(** [class HttpError extends Error]. *)
Record HttpError := {
  statusCode : N;
  message : jsstring
}.

(** The options given to sharp and the operations called on it, in order. *)
Inductive SharpOp :=
| Rotate
| WithMetadata
| Webp (quality effort : N)
| Png (compressionLevel : N) (adaptiveFiltering : bool)
| Jpeg (quality : N) (mozjpeg : bool)
| Avif (quality effort : N).

Record Sharp := {
  failOnError : bool;
  sequentialRead : bool;
  ops : list SharpOp
}.

Definition sharp_call (op : SharpOp) (t : Sharp) : Sharp :=
  {| failOnError := failOnError t;
     sequentialRead := sequentialRead t;
     ops := ops t ++ [op] |}.

(** What a reply streams: the body stream itself, or the body stream piped
    into a transformer. *)
Inductive OutStream :=
| BodyStream
| Transformed (transformer : Sharp).

Record ConversionResult := {
  stream : OutStream;
  contentType : jsstring;
  cleanup : Streams → Streams
}.

Inductive Payload :=
| ErrorJson (error : jsstring)
| StreamPayload (s : OutStream).

(** A reply as the handler makes it: [replyHeaders] are the headers the
    handler sets itself, not the ones the [onRequest] hook has set
    before. *)
Record Reply := {
  code : N;
  replyType : option jsstring;
  replyHeaders : list (jsstring * jsstring);
  payload : Payload
}.

(** The stages of the pipeline a request went through: the file field was
    read, the head was peeked, the head was classified, a transformer was
    created. *)
Inductive Stage := FileRead | HeadPeek | Classify | Transform.

Record World := mkWorld {
  filePresent : bool;
  streams : Streams;
  stages : list Stage;
  closeListeners : list (Streams → Streams)
}.

(** How an asynchronous function ends: it returns, it throws, or it awaits
    a promise that is never settled.  [OutOfFuel] is the bound of the model
    on the number of loop iterations, not a behaviour of the program.

    The errors of the model are the [HttpError]s the pipeline throws.  A
    [request.file()] that rejects, an ['error'] event of the stream while
    it is waited for and an error of the transformer are left out, and so
    are the rethrow of such an error by the handlers and the reply of the
    error handler to it: nothing is stated of a request that meets one. *)
Inductive Outcome (A : Type) :=
| Return (a : A)
| Throw (e : HttpError)
| Hang
| OutOfFuel.
Arguments Return {A} a.
Arguments Throw {A} e.
Arguments Hang {A}.
Arguments OutOfFuel {A}.

Definition Async (A : Type) : Type := World → Outcome A * World.

Module Async.

Definition ret {A} (a : A) : Async A := λ w, (Return a, w).

Definition bind {A B} (m : Async A) (k : A → Async B) : Async B :=
  λ w,
    match m w with
    | (Return a, w') => k a w'
    | (Throw e, w') => (Throw e, w')
    | (Hang, w') => (Hang, w')
    | (OutOfFuel, w') => (OutOfFuel, w')
    end.

Definition throw {A} (e : HttpError) : Async A := λ w, (Throw e, w).

Definition out_of_fuel {A} : Async A := λ w, (OutOfFuel, w).

(** [try { x = await m } catch (error) { if (error instanceof HttpError)
    ...; throw error }]: the error, or the value. *)
Definition try {A} (m : Async A) : Async (HttpError + A) :=
  λ w,
    match m w with
    | (Return a, w') => (Return (inr a), w')
    | (Throw e, w') => (Return (inl e), w')
    | (Hang, w') => (Hang, w')
    | (OutOfFuel, w') => (OutOfFuel, w')
    end.

Definition add_stage (s : Stage) (w : World) : World :=
  mkWorld (filePresent w) (streams w) (stages w ++ [s]) (closeListeners w).

Definition log (s : Stage) : Async unit :=
  λ w, (Return (), add_stage s w).

Definition set_streams (st : Streams) (w : World) : World :=
  mkWorld (filePresent w) st (stages w) (closeListeners w).

Definition on_streams (f : Streams → Streams) : Async unit :=
  λ w, (Return (), set_streams (f (streams w)) w).

Definition set_source (s : Readable) (st : Streams) : Streams :=
  mkStreams s (bodyStream st) (piped st).

Definition on_source (f : Readable → Readable) : Async unit :=
  on_streams (λ st, set_source (f (sourceStream st)) st).

(** [await request.file()]: the file part, or [undefined]. *)
Definition request_file : Async bool :=
  λ w, (Return (filePresent w), add_stage FileRead w).

Definition source_read (n : nat) : Async (option Buffer) :=
  λ w,
    let '(chunk, s) := Stream.read n (sourceStream (streams w)) in
    (Return chunk, set_streams (set_source s (streams w)) w).

Definition source_readableEnded : Async bool :=
  λ w, (Return (Stream.readableEnded (sourceStream (streams w))), w).

Definition source_once_readable : Async unit :=
  λ w,
    match Stream.once_readable (sourceStream (streams w)) with
    | Some s => (Return (), set_streams (set_source s (streams w)) w)
    | None =>
      (Hang, set_streams (set_source (Stream.tick (sourceStream (streams w)))
                                     (streams w)) w)
    end.

(** [reply.raw.on('close', listener)]. *)
Definition add_listener (listener : Streams → Streams) (w : World)
  : World :=
  mkWorld (filePresent w) (streams w) (stages w)
          (closeListeners w ++ [listener]).

Definition on_close (listener : Streams → Streams) : Async unit :=
  λ w, (Return (), add_listener listener w).

End Async.

Notation "x <- m ;; k" := (Async.bind m (λ x, k))
  (at level 100, m at next level, right associativity,
   format "'[v' x  <-  m  ;;  '/' k ']'").
Notation "m ;;; k" := (Async.bind m (λ _, k))
  (at level 100, right associativity,
   format "'[v' m  ;;;  '/' k ']'").

(** The client goes away: the ['close'] listeners of the response run. *)
Definition fire_close (w : World) : World :=
  Async.set_streams (foldl (λ st f, f st) (streams w) (closeListeners w)) w.

(* ===================================================================== *)
(** * Utilities shared by the two servers *)
(* ===================================================================== *)

(** [Buffer.concat(chunks, total)]: the chunks one after the other, cut or
    padded with zeros to [total] bytes. *)
Definition Buffer_concat (chunks : list Buffer) (total : nat) : Buffer :=
  take total (concat chunks ++ replicate total Byte.x00).

Fixpoint readHead_loop (fuel size total : nat) (chunks : list Buffer)
  : Async Buffer :=
  match fuel with
  | O => Async.out_of_fuel
  | S fuel' =>
    if bool_decide (total < size) then
      chunk <- Async.source_read (size - total) ;;
      match chunk with
      | Some c =>
        readHead_loop fuel' size (total + length c) (chunks ++ [c])
      | None =>
        isEnded <- Async.source_readableEnded ;;
        if isEnded then Async.ret (Buffer_concat chunks total)
        else
          Async.source_once_readable ;;;
          readHead_loop fuel' size total chunks
      end
    else Async.ret (Buffer_concat chunks total)
  end.

Definition readHead (fuel size : nat) : Async Buffer :=
  readHead_loop fuel size 0 [].

Definition applyOutputFormat (transformer : Sharp) (format : jsstring)
  : Sharp :=
  if JS.eqs format (js "webp") then sharp_call (Webp 80 4) transformer
  else if JS.eqs format (js "png") then sharp_call (Png 9 true) transformer
  else if JS.eqs format (js "jpeg") || JS.eqs format (js "jpg")
  then sharp_call (Jpeg 82 true) transformer
  else sharp_call (Avif 50 4) transformer.

Definition contentTypeForFormat (format : jsstring) : jsstring :=
  if JS.eqs format (js "webp") then js "image/webp"
  else if JS.eqs format (js "png") then js "image/png"
  else if JS.eqs format (js "jpeg") || JS.eqs format (js "jpg")
  then js "image/jpeg"
  else js "image/avif".

Definition isAllowedFormat (format : jsstring) : bool :=
  JS.eqs format (js "webp") || JS.eqs format (js "png")
  || JS.eqs format (js "jpeg") || JS.eqs format (js "jpg")
  || JS.eqs format (js "avif") || JS.eqs format (js "svg").

(** [sharp({ failOnError: false, sequentialRead: true })]. *)
Definition sharp_new : Sharp :=
  {| failOnError := false; sequentialRead := true; ops := [] |}.

(** The query parameters, as both routes read them. *)
Definition parse_format (request : Request) : jsstring :=
  JS.toLowerCase
    match query_get request "format" with
    | Some v => if QVal.truthy v then QVal.toString v else js "avif"
    | None => js "avif"
    end.

Definition parse_keepMetadata (request : Request) : bool :=
  match query_get request "keepMetadata" with
  | Some v => JS.eqs (JS.toLowerCase (QVal.toString v)) (js "1")
  | None => false
  end.

Definition UNSUPPORTED_FORMAT : jsstring :=
  js "Unsupported format. Use one of: avif, webp, png, jpeg, jpg, svg.".

(** [`inline; filename="converted.${format}"`]. *)
Definition content_disposition (format : jsstring) : jsstring * jsstring :=
  (js "Content-Disposition",
   js "inline; filename=" ++ [0x22%N] ++ js "converted." ++ format
   ++ [0x22%N]).

Definition error_reply (status : N) (msg : jsstring) : Reply :=
  {| code := status; replyType := None; replyHeaders := [];
     payload := ErrorJson msg |}.

(** The closure both servers run when the response closes. *)
Definition destroy_both (st : Streams) : Streams :=
  mkStreams (Stream.destroy (sourceStream st))
            (Stream.pt_destroy <$> bodyStream st)
            (piped st).

(** [new PassThrough(); bodyStream.write(head); sourceStream.pipe(bodyStream);
    sourceStream.resume()].  The source starts to flow on a later turn. *)
Definition reassemble (head : Buffer) (st : Streams) : Streams :=
  let body := Stream.pt_write head Stream.pt_new in
  mkStreams (Stream.set_flowing true (sourceStream st)) (Some body) true.

(* ===================================================================== *)
(** * server.js *)
(* ===================================================================== *)

Module Server.

Definition createConvertedStream
  (fuel : nat) (format : jsstring) (keepMetadata : bool)
  : Async ConversionResult :=
  Async.on_source (Stream.set_flowing false) ;;;
  Async.log HeadPeek ;;;
  head <- readHead fuel 4100 ;;
  Async.log Classify ;;;
  let magic := detectMagic head in
  if negb (valid magic) then
    Async.on_source Stream.destroy ;;;
    Async.throw {| statusCode := 415;
                   message := js "Unsupported or invalid image signature" |}
  else if JS.eqs format (js "svg") && negb (JS.eqs (kind magic) (js "svg"))
  then
    Async.on_source Stream.destroy ;;;
    Async.throw {| statusCode := 415;
                   message := js "SVG output only supported for SVG inputs" |}
  else
    Async.on_streams (reassemble head) ;;;
    let cleanup := destroy_both in
    if JS.eqs format (js "svg") then
      Async.ret {| stream := BodyStream;
                   contentType := js "image/svg+xml";
                   cleanup := cleanup |}
    else
      Async.log Transform ;;;
      let transformer := sharp_call Rotate sharp_new in
      let transformer :=
        if keepMetadata then sharp_call WithMetadata transformer
        else transformer in
      let transformer := applyOutputFormat transformer format in
      Async.ret {| stream := Transformed transformer;
                   contentType := contentTypeForFormat format;
                   cleanup := cleanup |}.

(** [app.post('/convert', ...)]. *)
Definition convert (fuel : nat) (request : Request) : Async Reply :=
  let format := parse_format request in
  let keepMetadata := parse_keepMetadata request in
  if negb (isAllowedFormat format) then
    Async.ret (error_reply 400 UNSUPPORTED_FORMAT)
  else
    file <- Async.request_file ;;
    if negb file then Async.ret (error_reply 400 (js "No file uploaded"))
    else
      attempt <- Async.try (createConvertedStream fuel format keepMetadata) ;;
      match attempt with
      | inl error =>
        Async.ret (error_reply (statusCode error) (message error))
      | inr converted =>
        Async.on_close (cleanup converted) ;;;
        Async.ret {| code := 200;
                     replyType := Some (contentType converted);
                     replyHeaders := [content_disposition format];
                     payload := StreamPayload (stream converted) |}
      end.

End Server.

(* ===================================================================== *)
(** * The single-route server *)
(* ===================================================================== *)

Module Part000.

(** [app.post('/convert', ...)], with the pipeline written in the
    handler. *)
Definition convert (fuel : nat) (request : Request) : Async Reply :=
  let format := parse_format request in
  let keepMetadata := parse_keepMetadata request in
  if negb (isAllowedFormat format) then
    Async.ret (error_reply 400 UNSUPPORTED_FORMAT)
  else
    file <- Async.request_file ;;
    if negb file then Async.ret (error_reply 400 (js "No file uploaded"))
    else
      Async.on_source (Stream.set_flowing false) ;;;
      Async.log HeadPeek ;;;
      head <- readHead fuel 4100 ;;
      Async.log Classify ;;;
      let magic := detectMagic head in
      if negb (valid magic) then
        Async.on_source Stream.destroy ;;;
        Async.ret
          (error_reply 415 (js "Unsupported or invalid image signature"))
      else if JS.eqs format (js "svg")
              && negb (JS.eqs (kind magic) (js "svg"))
      then
        Async.on_source Stream.destroy ;;;
        Async.ret
          (error_reply 415 (js "SVG output only supported for SVG inputs"))
      else
        Async.on_streams (reassemble head) ;;;
        Async.on_close destroy_both ;;;
        if JS.eqs format (js "svg") then
          Async.ret {| code := 200;
                       replyType := Some (js "image/svg+xml");
                       replyHeaders := [];
                       payload := StreamPayload BodyStream |}
        else
          Async.log Transform ;;;
          let transformer := sharp_call Rotate sharp_new in
          let transformer :=
            if keepMetadata then sharp_call WithMetadata transformer
            else transformer in
          let transformer := applyOutputFormat transformer format in
          Async.ret {| code := 200;
                       replyType := Some (contentTypeForFormat format);
                       replyHeaders := [content_disposition format];
                       payload := StreamPayload (Transformed transformer) |}.

End Part000.

(** Bytes of an ASCII literal, to write sample buffers. *)
Definition bytes (s : string) : Buffer :=
  (λ a, Ascii.byte_of_ascii a) <$> String.list_ascii_of_string s.
Arguments bytes _%_string.


(* ===================================================================== *)
(** * The specification's tables *)
(* ===================================================================== *)

(** A classifier given as rules tried in order: the first rule that
    matches gives the kind. *)
Definition classify (rules : list ((Buffer → bool) * jsstring))
  (buffer : Buffer) : MagicSignature :=
  match List.find (λ r, r.1 buffer) rules with
  | Some r => {| valid := true; kind := r.2 |}
  | None => {| valid := false; kind := js "unknown" |}
  end.

Module Rule.

Definition png (b : Buffer) : bool := bool_decide (take 8 b = PNG_SIGNATURE).

Definition jpeg (b : Buffer) : bool :=
  bool_decide (take 3 b = [Byte.xff; Byte.xd8; Byte.xff]).

(** Bytes 0-3 are "RIFF" and bytes 8-11 are "WEBP". *)
Definition webp_bytes (b : Buffer) : bool :=
  bool_decide (take 4 b = bytes "RIFF")
  && bool_decide (take 4 (drop 8 b) = bytes "WEBP").

(** The same on the bytes with their highest bit cleared. *)
Definition webp_7bit (b : Buffer) : bool :=
  bool_decide (JS.toString_ascii (take 4 b) = js "RIFF")
  && bool_decide (JS.toString_ascii (take 4 (drop 8 b)) = js "WEBP").

(** The ASCII decoding of bytes 4-11 contains "ftypavif" or "ftypavis". *)
Definition avif (b : Buffer) : bool :=
  let window := JS.toString_ascii (take 8 (drop 4 b)) in
  JS.includes (js "ftypavif") window || JS.includes (js "ftypavis") window.

Definition gif_bytes (b : Buffer) : bool :=
  bool_decide (take 6 b = bytes "GIF87a")
  || bool_decide (take 6 b = bytes "GIF89a").

Definition gif_7bit (b : Buffer) : bool :=
  bool_decide (JS.toString_ascii (take 6 b) = js "GIF87a")
  || bool_decide (JS.toString_ascii (take 6 b) = js "GIF89a").

(** The UTF-8 decoding of the whole buffer, in lower case, contains
    "<svg". *)
Definition svg (b : Buffer) : bool :=
  JS.includes (js "<svg") (JS.toLowerCase (JS.toString_utf8 b)).

End Rule.

(** The six rules with the RIFF, WEBP and GIF signatures compared byte for
    byte. *)
Definition rules_on_bytes : list ((Buffer → bool) * jsstring) :=
  [ (Rule.png, js "png"); (Rule.jpeg, js "jpeg");
    (Rule.webp_bytes, js "webp"); (Rule.avif, js "avif");
    (Rule.gif_bytes, js "gif"); (Rule.svg, js "svg") ].

(** The six rules with every textual signature compared on the 7-bit ASCII
    decoding of the bytes. *)
Definition rules_on_ascii : list ((Buffer → bool) * jsstring) :=
  [ (Rule.png, js "png"); (Rule.jpeg, js "jpeg");
    (Rule.webp_7bit, js "webp"); (Rule.avif, js "avif");
    (Rule.gif_7bit, js "gif"); (Rule.svg, js "svg") ].

Definition KINDS : list jsstring :=
  [ js "png"; js "jpeg"; js "webp"; js "avif"; js "gif"; js "svg";
    js "unknown" ].

(** A buffer of each kind, in the order of [KINDS]; the last one is
    empty. *)
Definition SAMPLES : list Buffer :=
  [ PNG_SIGNATURE;
    [Byte.xff; Byte.xd8; Byte.xff; Byte.xe0];
    bytes "RIFF" ++ [Byte.x24; Byte.x00; Byte.x00; Byte.x00] ++ bytes "WEBP";
    [Byte.x00; Byte.x00; Byte.x00; Byte.x1c] ++ bytes "ftypavif";
    bytes "GIF89a";
    bytes "<svg/>";
    [] ].

(** Twelve bytes that are no WEBP file: the first one is 0xD2, which is
    "R" with its highest bit set. *)
Definition high_bit_riff : Buffer :=
  [Byte.xd2; Byte.x49; Byte.x46; Byte.x46;
   Byte.x00; Byte.x00; Byte.x00; Byte.x00;
   Byte.x57; Byte.x45; Byte.x42; Byte.x50].

(** The source stream of a request, and the world with it replaced. *)
Definition source_of (w : World) : Readable := sourceStream (streams w).

Definition with_source (s : Readable) (w : World) : World :=
  Async.set_streams (Async.set_source s (streams w)) w.

(** A source nobody has read from yet: ['end'] is neither scheduled nor
    emitted, the stream is not destroyed, and a parser that has pushed the
    end of the stream has nothing left to push. *)
Definition fresh (s : Readable) : Prop :=
  endScheduled s = false ∧ endEmitted s = false ∧ destroyed s = false
  ∧ (ended s = true → upcoming s = []).

(** What holds of the source all along the peek: ['end'] has not been
    emitted, and it is scheduled only on a stream that has ended. *)
Definition peekable (s : Readable) : Prop :=
  endEmitted s = false ∧ destroyed s = false
  ∧ (endScheduled s = true → ended s = true)
  ∧ (ended s = true → upcoming s = []).

(** The world when the peek starts: the source is paused. *)
Definition peek_start (w : World) : World :=
  Async.add_stage HeadPeek
    (with_source (Stream.set_flowing false (source_of w)) w).

(** The world when a request is turned down after the peek: the head was
    classified and the source is destroyed. *)
Definition rejected (w1 : World) : World :=
  with_source (Stream.destroy (source_of w1)) (Async.add_stage Classify w1).

(** The world when the body stream has been put together. *)
Definition reassembled (head : Buffer) (w1 : World) : World :=
  Async.set_streams (reassemble head (streams w1))
                    (Async.add_stage Classify w1).

Definition SIGNATURE_ERROR : HttpError :=
  {| statusCode := 415;
     message := js "Unsupported or invalid image signature" |}.

Definition SVG_ONLY_ERROR : HttpError :=
  {| statusCode := 415;
     message := js "SVG output only supported for SVG inputs" |}.

(** The transformer both servers build for a raster format. *)
Definition transformer_for (format : jsstring) (keepMetadata : bool) : Sharp :=
  applyOutputFormat
    (if keepMetadata then sharp_call WithMetadata (sharp_call Rotate sharp_new)
     else sharp_call Rotate sharp_new)
    format.

(** The format tokens a request may carry. *)
Definition allowed_tokens : list jsstring :=
  [ js "avif"; js "webp"; js "png"; js "jpeg"; js "jpg"; js "svg" ].

(** The policy table: for a format token, the content type of the reply
    and the options given to the transformer; no options for SVG, which is
    passed through.  The token "jpg" is the JPEG row under its other
    name. *)
Definition policy_table : list (jsstring * (jsstring * option SharpOp)) :=
  [ (js "avif", (js "image/avif", Some (Avif 50 4)));
    (js "webp", (js "image/webp", Some (Webp 80 4)));
    (js "png", (js "image/png", Some (Png 9 true)));
    (js "jpeg", (js "image/jpeg", Some (Jpeg 82 true)));
    (js "jpg", (js "image/jpeg", Some (Jpeg 82 true)));
    (js "svg", (js "image/svg+xml", None)) ].

(** What the reply streams for a row of the table: the body stream as it
    is, or the body stream through a transformer that normalises the
    orientation, keeps the metadata when asked to, and encodes with the
    options of the row. *)
Definition policy_stream (options : option SharpOp) (keepMetadata : bool)
  : OutStream :=
  match options with
  | None => BodyStream
  | Some op =>
    Transformed
      {| failOnError := false; sequentialRead := true;
         ops := [Rotate] ++ (if keepMetadata then [WithMetadata] else [])
                ++ [op] |}
  end.

(** Running [f] on the streams of [w] once more changes nothing, and after
    it both the source and the body stream are destroyed. *)
Definition releases_once (f : Streams → Streams) (w : World) : Prop :=
  (∀ n st, Nat.iter (S n) f st = f st)
  ∧ destroyed (sourceStream (f (streams w))) = true
  ∧ ∃ body, bodyStream (f (streams w)) = Some body ∧ pt_destroyed body = true.

(** Two code units that are the same letter, in either case. *)
Definition same_letter (a b : N) : Prop :=
  a = b
  ∨ ((0x41 ≤ a ≤ 0x5A)%N ∧ b = (a + 32)%N)
  ∨ ((0x41 ≤ b ≤ 0x5A)%N ∧ a = (b + 32)%N).

(** Two outcomes of a request that are the same but for the file name
    suggested by a streamed reply: "converted.jpg" in the first,
    "converted.jpeg" in the second. *)
Definition same_but_filename (o o' : Outcome Reply) : Prop :=
  match o, o' with
  | Return a, Return b =>
    code a = code b ∧ replyType a = replyType b ∧ payload a = payload b
    ∧ (if bool_decide (code a = 200%N)
       then replyHeaders a = [content_disposition (js "jpg")]
            ∧ replyHeaders b = [content_disposition (js "jpeg")]
       else replyHeaders a = replyHeaders b)
  | Throw e, Throw e' => e = e'
  | Hang, Hang => True
  | OutOfFuel, OutOfFuel => True
  | _, _ => False
  end.

(** The reassembled stream of [w'] gives back the source of [w]: read to
    its end, the body stream delivers the bytes the source had to deliver,
    and then ends. *)
Definition round_trip (w w' : World) : Prop :=
  ∃ body,
    bodyStream (Pipe.run_to_end (streams w')) = Some body
    ∧ written body = Stream.remaining (source_of w)
    ∧ finished body = true.

(** ** Sample uploads and requests *)

(** A source nobody has read from: [b] is buffered, the chunks [u] are
    still to come, [e] tells whether the parser has pushed the end. *)
Definition source_with (b : Buffer) (u : list Buffer) (e : bool) : Readable :=
  mkReadable b u e false false None false 0.

Definition upload_of (s : Readable) : World :=
  mkWorld true (mkStreams s None false) [] [].

Definition request_with (format : jsstring) : Request :=
  {| query := Some {[ "format" := QStr format ]} |}.

Definition text_file : Buffer := replicate 4200 Byte.x61.

Definition png_file : Buffer := PNG_SIGNATURE ++ replicate 4200 Byte.x00.

Definition svg_file : Buffer :=
  bytes "<svg xmlns='http://www.w3.org/2000/svg'/>" ++ replicate 4200 Byte.x20.

(** A 6-byte upload, shorter than the 4100 bytes of the peek. *)
Definition tiny_file : Buffer := bytes "GIF89a".

(** The 6-byte upload, all of it in the buffer and the end pushed. *)
Definition tiny_upload : World := upload_of (source_with tiny_file [] true).

(** The PNG file with its first 4100 bytes in the buffer when the handler
    starts and the rest still to come. *)
Definition png_upload : World :=
  upload_of (source_with (take 4100 png_file) [drop 4100 png_file] false).

Definition text_upload : World := upload_of (source_with text_file [] true).

Definition svg_upload : World :=
  upload_of (source_with (take 4100 svg_file) [drop 4100 svg_file] false).

(** An upload that is no WEBP file: it starts with [high_bit_riff]. *)
Definition high_bit_riff_file : Buffer :=
  high_bit_riff ++ replicate 4200 Byte.x00.

Definition high_bit_riff_upload : World :=
  upload_of (source_with high_bit_riff_file [] true).

(** The PNG signature with the highest bit of its first two bytes
    flipped. *)
Definition flipped_png : Buffer :=
  [Byte.x09; Byte.xd0; Byte.x4e; Byte.x47;
   Byte.x0d; Byte.x0a; Byte.x1a; Byte.x0a].

(* ===================================================================== *)
(** * The other utilities of server.js *)
(* ===================================================================== *)

(** The regular expressions of [server.js], each as the function its
    [replace] computes on a string. *)
Module Regex.

Definition SLASH : N := 0x2F.
Definition DOT : N := 0x2E.
Definition DASH : N := 0x2D.

(** [s.replace(/\/$/, '')]: a slash that ends the string is removed. *)
Fixpoint strip_trailing_slash (s : jsstring) : jsstring :=
  match s with
  | [] => []
  | [c] => if (c =? SLASH)%N then [] else [c]
  | c :: t => c :: strip_trailing_slash t
  end.

(** [s.replace(/\.[^.]+$/, '')]: the match is tried from the left; it
    starts at a dot that is followed, up to the end of the string, by one
    or more characters other than a dot. *)
Fixpoint strip_extension (s : jsstring) : jsstring :=
  match s with
  | [] => []
  | c :: t =>
    if (c =? DOT)%N && negb (bool_decide (t = []))
       && forallb (λ d, negb (d =? DOT)%N) t
    then []
    else c :: strip_extension t
  end.

(** The characters of the class [[a-z0-9-_]]. *)
Definition safe (c : N) : bool :=
  ((0x61 <=? c)%N && (c <=? 0x7A)%N)
  || ((0x30 <=? c)%N && (c <=? 0x39)%N)
  || (c =? DASH)%N || (c =? 0x5F)%N.

(** [s.replace(/C+/g, '-')] for a class [C] of characters: every maximal
    run of characters of the class becomes one dash.  [in_run] tells that
    the character before was of the class. *)
Fixpoint squeeze (C : N → bool) (in_run : bool) (s : jsstring) : jsstring :=
  match s with
  | [] => []
  | c :: t =>
    if C c then
      if in_run then squeeze C true t else DASH :: squeeze C true t
    else c :: squeeze C false t
  end.

(** [s.replace(/[^a-z0-9-_]+/g, '-')]. *)
Definition replace_unsafe (s : jsstring) : jsstring :=
  squeeze (λ c, negb (safe c)) false s.

(** [s.replace(/-+/g, '-')]. *)
Definition collapse_dashes (s : jsstring) : jsstring :=
  squeeze (λ c, (c =? DASH)%N) false s.

Definition strip_leading_dash (s : jsstring) : jsstring :=
  match s with
  | c :: t => if (c =? DASH)%N then t else s
  | [] => []
  end.

Fixpoint strip_trailing_dash (s : jsstring) : jsstring :=
  match s with
  | [] => []
  | [c] => if (c =? DASH)%N then [] else [c]
  | c :: t => c :: strip_trailing_dash t
  end.

(** [s.replace(/(^-|-$)/g, '')]: a dash at the start is removed, and a
    dash at the end of what follows it. *)
Definition trim_dashes (s : jsstring) : jsstring :=
  strip_trailing_dash (strip_leading_dash s).

(** [s.replace(pattern, replacement)] for a string pattern and a
    replacement without [$]: the first occurrence is replaced. *)
Fixpoint replace_first (pattern replacement s : jsstring) : jsstring :=
  if JS.startsWith pattern s then replacement ++ drop (length pattern) s
  else
    match s with
    | [] => []
    | c :: t => c :: replace_first pattern replacement t
    end.

End Regex.

Definition normalizeOrigin (value : jsstring) : jsstring :=
  if bool_decide (value = []) || JS.eqs value (js "*") then
    (if bool_decide (value = []) then js "*" else value)
  else Regex.strip_trailing_slash value.

(** [normalizeOrigin(process.env.CORS_ORIGIN || '*')]. *)
Definition CORS_ORIGIN (env : option jsstring) : jsstring :=
  normalizeOrigin
    match env with
    | Some v => if bool_decide (v = []) then js "*" else v
    | None => js "*"
    end.

(** A number in a template string: its decimal digits. *)
Definition decimal (n : N) : jsstring :=
  js (NilZero.string_of_uint (N.to_uint n)).

(** [buildPublicId(filename)].  [now] is [Date.now()] and [random36] is
    [Math.random().toString(36)]. *)
Definition buildPublicId (filename : option jsstring) (now : N)
    (random36 : jsstring) : jsstring :=
  let base :=
    Regex.strip_extension
      match filename with
      | Some f => if bool_decide (f = []) then js "image" else f
      | None => js "image"
      end in
  let normalized :=
    Regex.trim_dashes
      (Regex.collapse_dashes (Regex.replace_unsafe (JS.toLowerCase base))) in
  let suffix := decimal now ++ js "-" ++ JS.slice 2 8 random36 in
  (if bool_decide (normalized = []) then js "image" else normalized)
  ++ js "-" ++ suffix.

Module TransformedUrls.

Record t := {
  avif : jsstring;
  webp : jsstring;
  jpeg : jsstring;
  jpg : jsstring;
  png : jsstring
}.

End TransformedUrls.

Definition buildTransformedUrls (secureUrl : jsstring) : TransformedUrls.t :=
  let base (format : jsstring) :=
    Regex.replace_first (js "/upload/")
      (js "/upload/f_" ++ format ++ js "," ++ js "q_auto" ++ js "/")
      secureUrl in
  {| TransformedUrls.avif := base (js "avif");
     TransformedUrls.webp := base (js "webp");
     TransformedUrls.jpeg := base (js "jpg");
     TransformedUrls.jpg := base (js "jpg");
     TransformedUrls.png := base (js "png") |}.

(** No two dashes in a row. *)
Fixpoint no_double_dash (s : jsstring) : bool :=
  match s with
  | a :: (b :: _) as t =>
    negb ((a =? Regex.DASH)%N && (b =? Regex.DASH)%N) && no_double_dash t
  | _ => true
  end.

(** [process.env.CORS_ORIGIN || '*'], the header value of the single-route
    server, which does not normalise it. *)
Definition CORS_ORIGIN_part_000 (env : option jsstring) : jsstring :=
  match env with
  | Some v => if bool_decide (v = []) then js "*" else v
  | None => js "*"
  end.

(* ===================================================================== *)
(** * Uploads to Cloudinary *)
(* ===================================================================== *)

(** The environment variables [server.js] reads for Cloudinary. *)
Record ProcessEnv := {
  env_CLOUDINARY_CLOUD_NAME : option jsstring;
  env_CLOUDINARY_API_KEY : option jsstring;
  env_CLOUDINARY_API_SECRET : option jsstring;
  env_CLOUDINARY_FOLDER : option jsstring
}.

(** [v || d]: an unset variable and the empty string are falsy. *)
Definition or_default (v : option jsstring) (d : jsstring) : jsstring :=
  match v with
  | Some s => if bool_decide (s = []) then d else s
  | None => d
  end.

(** [a && b] on strings: [a] when it is empty, [b] otherwise. *)
Definition js_and (a b : jsstring) : jsstring :=
  if bool_decide (a = []) then a else b.

Definition CLOUDINARY_CLOUD_NAME (env : ProcessEnv) : jsstring :=
  or_default (env_CLOUDINARY_CLOUD_NAME env) [].

Definition CLOUDINARY_API_KEY (env : ProcessEnv) : jsstring :=
  or_default (env_CLOUDINARY_API_KEY env) [].

Definition CLOUDINARY_API_SECRET (env : ProcessEnv) : jsstring :=
  or_default (env_CLOUDINARY_API_SECRET env) [].

Definition CLOUDINARY_FOLDER (env : ProcessEnv) : jsstring :=
  or_default (env_CLOUDINARY_FOLDER env) (js "converted").

Definition CLOUDINARY_ENABLED (env : ProcessEnv) : jsstring :=
  js_and (js_and (CLOUDINARY_CLOUD_NAME env) (CLOUDINARY_API_KEY env))
         (CLOUDINARY_API_SECRET env).

Module Cloudinary.

(** The options [server.js] gives to [upload_stream]. *)
Record options := {
  folder : jsstring;
  public_id : jsstring;
  resource_type : jsstring;
  overwrite : bool
}.

(** The fields of the result [server.js] reads. *)
Record result := {
  secure_url : jsstring;
  bytes : N;
  format : jsstring;
  result_public_id : jsstring
}.

End Cloudinary.

(** The readable given to [uploadToCloudinary]: the uploaded file itself,
    or the stream the conversion pipeline returned. *)
Inductive UploadSource :=
| FileStream
| ConvertedStream (s : OutStream).

(** A call of [cloudinary.uploader.upload_stream] with the readable piped
    into it.  [call_input] is what the upload delivers to the readable
    chain, read to its end: for a converted stream, the bytes that enter
    the transformer. *)
Record UploadCall := {
  call_options : Cloudinary.options;
  call_readable : UploadSource;
  call_input : Buffer
}.

(** The service: its callback gets a result, or an error ([None]). *)
Definition UploadService : Type := UploadCall → option Cloudinary.result.

(** A request to an upload route: the world of the request, the name of
    the uploaded file ([file.filename]) and the calls made to the service,
    in order. *)
Record Exchange := mkExchange {
  world : World;
  filename : option jsstring;
  uploads : list UploadCall
}.

Definition Handler (A : Type) : Type := Exchange → Outcome A * Exchange.

Module Handler.

Definition ret {A} (a : A) : Handler A := λ x, (Return a, x).

Definition bind {A B} (m : Handler A) (k : A → Handler B) : Handler B :=
  λ x,
    match m x with
    | (Return a, x') => k a x'
    | (Throw e, x') => (Throw e, x')
    | (Hang, x') => (Hang, x')
    | (OutOfFuel, x') => (OutOfFuel, x')
    end.

(** A step of the conversion pipeline, on the world of the request. *)
Definition lift {A} (m : Async A) : Handler A :=
  λ x,
    let '(o, w) := m (world x) in
    (o, mkExchange w (filename x) (uploads x)).

Definition file_filename : Handler (option jsstring) :=
  λ x, (Return (filename x), x).

End Handler.

Notation "x <~ m ;; k" := (Handler.bind m (λ x, k))
  (at level 100, m at next level, right associativity,
   format "'[v' x  <~  m  ;;  '/' k ']'").
Notation "m ;;~ k" := (Handler.bind m (λ _, k))
  (at level 100, right associativity,
   format "'[v' m  ;;~  '/' k ']'").

(** [pipeline(readable, uploadStream)]: the readable flows into the upload
    stream until the parser has pushed everything.  The uploaded file
    itself is piped as it is; a converted stream is fed by the body
    stream, which the source is already piped into. *)
Definition pipeline (readable : UploadSource) (st : Streams)
  : Buffer * Streams :=
  match readable with
  | FileStream =>
    let st' :=
      Pipe.run_to_end
        (mkStreams (Stream.set_flowing true (sourceStream st))
                   (Some Stream.pt_new) true) in
    (Pipe.delivered st',
     mkStreams (sourceStream st') (bodyStream st) (piped st))
  | ConvertedStream _ =>
    let st' := Pipe.run_to_end st in (Pipe.delivered st', st')
  end.

(** [uploadToCloudinary(readable, options)]: the promise is settled by the
    callback of the service, once the readable has been read to its end. *)
Definition uploadToCloudinary (service : UploadService)
    (readable : UploadSource) (options : Cloudinary.options)
  : Handler (option Cloudinary.result) :=
  λ x,
    let '(input, st) := pipeline readable (streams (world x)) in
    let call := {| call_options := options; call_readable := readable;
                   call_input := input |} in
    (Return (service call),
     mkExchange (Async.set_streams st (world x)) (filename x)
                (uploads x ++ [call])).

(** The JSON bodies of the upload routes. *)
Inductive JsonBody :=
| ErrorBody (error : jsstring)
| ConvertedBody (url : jsstring) (bytes : N) (format : jsstring)
    (publicId : jsstring) (originalFilename : option jsstring)
| UploadedBody (originalUrl : jsstring) (bytes : N) (publicId : jsstring)
    (urls : TransformedUrls.t).

Record JsonReply := {
  json_code : N;
  json_body : JsonBody
}.

Definition json_error (status : N) (msg : jsstring) : JsonReply :=
  {| json_code := status; json_body := ErrorBody msg |}.

Definition NOT_CONFIGURED : jsstring :=
  js "Cloudinary is not configured on this server.".

Definition UPLOAD_FAILED : jsstring := js "Cloudinary upload failed".

(** [file.filename || null]. *)
Definition or_null (v : option jsstring) : option jsstring :=
  match v with
  | Some s => if bool_decide (s = []) then None else Some s
  | None => None
  end.

(** The two upload routes of [server.js].  [now] is [Date.now()] and
    [random36] is [Math.random().toString(36)], each read once by
    [buildPublicId]. *)
Module Routes.

Section routes.
Context (env : ProcessEnv) (service : UploadService)
        (now : N) (random36 : jsstring).

Definition upload_options (publicId : jsstring) : Cloudinary.options :=
  {| Cloudinary.folder := CLOUDINARY_FOLDER env;
     Cloudinary.public_id := publicId;
     Cloudinary.resource_type := js "image";
     Cloudinary.overwrite := false |}.

(** [app.post('/convert/upload', ...)]. *)
Definition convert_upload (fuel : nat) (request : Request)
  : Handler JsonReply :=
  if bool_decide (CLOUDINARY_ENABLED env = []) then
    Handler.ret (json_error 500 NOT_CONFIGURED)
  else
    let format := parse_format request in
    let keepMetadata := parse_keepMetadata request in
    if negb (isAllowedFormat format) then
      Handler.ret (json_error 400 UNSUPPORTED_FORMAT)
    else
      file <~ Handler.lift Async.request_file ;;
      if negb file then Handler.ret (json_error 400 (js "No file uploaded"))
      else
        attempt <~ Handler.lift
          (Async.try (Server.createConvertedStream fuel format keepMetadata)) ;;
        match attempt with
        | inl error =>
          Handler.ret (json_error (statusCode error) (message error))
        | inr converted =>
          name <~ Handler.file_filename ;;
          let publicId := buildPublicId name now random36 in
          Handler.lift (Async.on_close (cleanup converted)) ;;~
          uploaded <~ uploadToCloudinary service
                        (ConvertedStream (stream converted))
                        (upload_options publicId) ;;
          match uploaded with
          | Some result =>
            Handler.ret
              {| json_code := 200;
                 json_body :=
                   ConvertedBody (Cloudinary.secure_url result)
                                 (Cloudinary.bytes result)
                                 (Cloudinary.format result)
                                 (Cloudinary.result_public_id result)
                                 (or_null name) |}
          | None => Handler.ret (json_error 500 UPLOAD_FAILED)
          end
        end.

(** [app.post('/upload', ...)]. *)
Definition upload : Handler JsonReply :=
  if bool_decide (CLOUDINARY_ENABLED env = []) then
    Handler.ret (json_error 500 NOT_CONFIGURED)
  else
    file <~ Handler.lift Async.request_file ;;
    if negb file then Handler.ret (json_error 400 (js "No file uploaded"))
    else
      name <~ Handler.file_filename ;;
      let publicId := buildPublicId name now random36 in
      uploaded <~ uploadToCloudinary service FileStream
                    (upload_options publicId) ;;
      match uploaded with
      | Some result =>
        let urls := buildTransformedUrls (Cloudinary.secure_url result) in
        Handler.ret
          {| json_code := 200;
             json_body :=
               UploadedBody (Cloudinary.secure_url result)
                            (Cloudinary.bytes result)
                            (Cloudinary.result_public_id result)
                            urls |}
      | None => Handler.ret (json_error 500 UPLOAD_FAILED)
      end.

End routes.

End Routes.

(** The call an upload route makes for a file name, a readable and the
    bytes the upload delivers. *)
Definition upload_call (env : ProcessEnv) (name : option jsstring) (now : N)
    (random36 : jsstring) (readable : UploadSource) (input : Buffer)
  : UploadCall :=
  {| call_options :=
       Routes.upload_options env (buildPublicId name now random36);
     call_readable := readable;
     call_input := input |}.

(** The reply of [/convert/upload] once the service has answered. *)
Definition converted_reply (name : option jsstring)
    (uploaded : option Cloudinary.result) : JsonReply :=
  match uploaded with
  | Some result =>
    {| json_code := 200;
       json_body :=
         ConvertedBody (Cloudinary.secure_url result)
                       (Cloudinary.bytes result)
                       (Cloudinary.format result)
                       (Cloudinary.result_public_id result)
                       (or_null name) |}
  | None => json_error 500 UPLOAD_FAILED
  end.

(** The reply of [/upload] once the service has answered. *)
Definition uploaded_reply (uploaded : option Cloudinary.result) : JsonReply :=
  match uploaded with
  | Some result =>
    {| json_code := 200;
       json_body :=
         UploadedBody (Cloudinary.secure_url result)
                      (Cloudinary.bytes result)
                      (Cloudinary.result_public_id result)
                      (buildTransformedUrls (Cloudinary.secure_url result)) |}
  | None => json_error 500 UPLOAD_FAILED
  end.

(** The request of an upload route as it arrives: nothing uploaded yet. *)
Definition exchange_of (w : World) (name : option jsstring) : Exchange :=
  mkExchange w name [].

(** A sample configuration and a service that accepts every upload. *)
Definition sample_env : ProcessEnv :=
  {| env_CLOUDINARY_CLOUD_NAME := Some (js "demo");
     env_CLOUDINARY_API_KEY := Some (js "key");
     env_CLOUDINARY_API_SECRET := Some (js "secret");
     env_CLOUDINARY_FOLDER := None |}.

Definition sample_service : UploadService :=
  λ call,
    Some {| Cloudinary.secure_url :=
              js "https://res.cloudinary.com/demo/image/upload/v1/"
              ++ Cloudinary.folder (call_options call) ++ js "/"
              ++ Cloudinary.public_id (call_options call);
            Cloudinary.bytes := N.of_nat (length (call_input call));
            Cloudinary.format := js "bin";
            Cloudinary.result_public_id :=
              Cloudinary.folder (call_options call) ++ js "/"
              ++ Cloudinary.public_id (call_options call) |}.

(** Four bytes that spell "<svg" in some letter case. *)
Definition svg_tag (t : Buffer) : Prop :=
  ∃ s v g,
    t = [Byte.x3c; s; v; g]
    ∧ s ∈ [Byte.x73; Byte.x53] ∧ v ∈ [Byte.x76; Byte.x56]
    ∧ g ∈ [Byte.x67; Byte.x47].

(** The content type that goes with an encoder. *)
Definition content_type_of (op : SharpOp) : option jsstring :=
  match op with
  | Webp _ _ => Some (js "image/webp")
  | Png _ _ => Some (js "image/png")
  | Jpeg _ _ => Some (js "image/jpeg")
  | Avif _ _ => Some (js "image/avif")
  | Rotate | WithMetadata => None
  end.

(* ===================================================================== *)
(** * Lemmas on strings and buffers *)
(* ===================================================================== *)

Lemma eqs_true (a b : jsstring) : JS.eqs a b = true ↔ a = b.
Proof. unfold JS.eqs. apply bool_decide_eq_true. Qed.

Lemma eqs_false (a b : jsstring) : JS.eqs a b = false ↔ a ≠ b.
Proof. unfold JS.eqs. apply bool_decide_eq_false. Qed.

Lemma byte_to_N_inj (a b : Byte.byte) : Byte.to_N a = Byte.to_N b → a = b.
Proof.
  intros E.
  assert (H : Byte.of_N (Byte.to_N a) = Byte.of_N (Byte.to_N b)) by (by rewrite E).
  rewrite !Byte.of_to_N in H. by injection H.
Qed.

Lemma byte_is_spec (buf : Buffer) (i : nat) (c : Byte.byte) :
  JS.byte_is buf i (Byte.to_N c) = bool_decide (buf !! i = Some c).
Proof.
  unfold JS.byte_is. destruct (buf !! i) as [b|] eqn:E.
  - destruct (N.eqb_spec (Byte.to_N b) (Byte.to_N c)) as [H|H].
    + apply byte_to_N_inj in H. subst. by rewrite bool_decide_eq_true_2.
    + rewrite bool_decide_eq_false_2; [done|]. intros [= ->]. by apply H.
  - by rewrite bool_decide_eq_false_2.
Qed.

Lemma ascii_take (n : nat) (b : Buffer) :
  take n (JS.toString_ascii b) = JS.toString_ascii (take n b).
Proof. unfold JS.toString_ascii. by rewrite fmap_take. Qed.

Lemma ascii_drop (n : nat) (b : Buffer) :
  drop n (JS.toString_ascii b) = JS.toString_ascii (drop n b).
Proof. unfold JS.toString_ascii. by rewrite fmap_drop. Qed.

(** A window of the 12-byte header is the same window of the buffer. *)
Lemma header_window (a n : nat) (b : Buffer) :
  a + n ≤ 12 → take n (drop a (take 12 b)) = take n (drop a b).
Proof.
  intros H. rewrite (take_drop_commute b n a).
  rewrite (take_drop_commute (take 12 b) n a), take_take.
  by rewrite Nat.min_l by lia.
Qed.

Lemma png_rule_eq (b : Buffer) :
  bool_decide (8 ≤ length b) && JS.equals (JS.slice 0 8 b) PNG_SIGNATURE
  = Rule.png b.
Proof.
  unfold JS.equals, JS.slice, Rule.png. rewrite drop_0. simpl.
  destruct (bool_decide_reflect (take 8 b = PNG_SIGNATURE)) as [E|E];
    [|by rewrite andb_false_r].
  rewrite andb_true_r. apply bool_decide_eq_true_2.
  apply (f_equal length) in E. rewrite length_take in E.
  change (length PNG_SIGNATURE) with 8 in E. lia.
Qed.

Lemma jpeg_rule_eq (b : Buffer) :
  bool_decide (3 ≤ length b)
  && JS.byte_is b 0 0xff && JS.byte_is b 1 0xd8 && JS.byte_is b 2 0xff
  = Rule.jpeg b.
Proof.
  change 0xff%N with (Byte.to_N Byte.xff).
  change 0xd8%N with (Byte.to_N Byte.xd8).
  rewrite !byte_is_spec. unfold Rule.jpeg.
  destruct b as [|x [|y [|z r]]]; simpl;
    repeat case_bool_decide; simplify_eq/=; try done; try lia.
Qed.

Lemma webp_rule_eq (b : Buffer) :
  JS.startsWith (js "RIFF") (JS.toString_ascii (JS.slice 0 12 b))
  && JS.eqs (JS.slice 8 12 (JS.toString_ascii (JS.slice 0 12 b))) (js "WEBP")
  = Rule.webp_7bit b.
Proof.
  unfold JS.startsWith, JS.eqs, JS.slice, Rule.webp_7bit.
  rewrite !drop_0. change (12 - 0) with 12. change (12 - 8) with 4.
  change (length (js "RIFF")) with 4.
  rewrite ascii_drop, !ascii_take, take_take.
  change (4 `min` 12) with 4.
  by rewrite (header_window 8 4) by lia.
Qed.

Lemma avif_window_eq (b : Buffer) :
  JS.slice 4 12 (JS.toString_ascii (JS.slice 0 12 b))
  = JS.toString_ascii (take 8 (drop 4 b)).
Proof.
  unfold JS.slice. rewrite drop_0. change (12 - 0) with 12.
  change (12 - 4) with 8.
  rewrite ascii_drop, ascii_take. by rewrite (header_window 4 8) by lia.
Qed.

Lemma gif_rule_eq (b : Buffer) :
  JS.startsWith (js "GIF87a") (JS.toString_ascii (JS.slice 0 12 b))
  || JS.startsWith (js "GIF89a") (JS.toString_ascii (JS.slice 0 12 b))
  = Rule.gif_7bit b.
Proof.
  unfold JS.startsWith, JS.slice, Rule.gif_7bit.
  rewrite !drop_0. change (12 - 0) with 12.
  change (length (js "GIF87a")) with 6. change (length (js "GIF89a")) with 6.
  rewrite !ascii_take, take_take. by change (6 `min` 12) with 6.
Qed.

(** [detectMagic] as its six tests. *)
Lemma detectMagic_unfold (b : Buffer) :
  detectMagic b =
  if Rule.png b then {| valid := true; kind := js "png" |}
  else if Rule.jpeg b then {| valid := true; kind := js "jpeg" |}
  else if Rule.webp_7bit b then {| valid := true; kind := js "webp" |}
  else if Rule.avif b then {| valid := true; kind := js "avif" |}
  else if Rule.gif_7bit b then {| valid := true; kind := js "gif" |}
  else if Rule.svg b then {| valid := true; kind := js "svg" |}
  else {| valid := false; kind := js "unknown" |}.
Proof.
  unfold detectMagic.
  rewrite png_rule_eq, jpeg_rule_eq, webp_rule_eq, avif_window_eq, gif_rule_eq.
  reflexivity.
Qed.

Lemma detectMagic_cases (b : Buffer) :
  detectMagic b ∈
    [ {| valid := true; kind := js "png" |};
      {| valid := true; kind := js "jpeg" |};
      {| valid := true; kind := js "webp" |};
      {| valid := true; kind := js "avif" |};
      {| valid := true; kind := js "gif" |};
      {| valid := true; kind := js "svg" |};
      {| valid := false; kind := js "unknown" |} ].
Proof.
  rewrite detectMagic_unfold.
  repeat (case_match; [set_solver|]). set_solver.
Qed.

(** On a header of 7-bit bytes, clearing the highest bit changes nothing. *)
Lemma ascii_7bit_eq (b : Buffer) (s : string) :
  Forall (λ x, (Byte.to_N x < 128)%N) b →
  JS.toString_ascii b = js s → b = bytes s.
Proof.
  unfold JS.toString_ascii, js, bytes.
  revert b. induction (String.list_ascii_of_string s) as [|a l IH];
    intros [|x b] Hb E; simplify_eq/=; [done|].
  inversion_clear Hb as [|?? Hx Hb'].
  f_equal; [|by apply IH].
  apply byte_to_N_inj.
  assert (Hland : N.land (Byte.to_N x) 127 = Byte.to_N x).
  { change 127%N with (N.ones 7). rewrite N.land_ones.
    apply N.mod_small. by change (2 ^ 7)%N with 128%N. }
  rewrite Hland in H. rewrite H.
  by destruct a as [[] [] [] [] [] [] [] []].
Qed.

(* ===================================================================== *)
(** * Lemmas on the streams *)
(* ===================================================================== *)

Lemma with_source_id (w : World) : with_source (source_of w) w = w.
Proof. by destruct w as [? [] ? ?]. Qed.

Lemma with_source_twice (s1 s2 : Readable) (w : World) :
  with_source s2 (with_source s1 w) = with_source s2 w.
Proof. by destruct w as [? [] ? ?]. Qed.

Lemma source_of_with_source (s : Readable) (w : World) :
  source_of (with_source s w) = s.
Proof. by destruct w as [? [] ? ?]. Qed.

(** What [read] does to a stream: the chunk comes off the front of the
    bytes still to deliver, and only the buffer and the schedule of ['end']
    change. *)
Lemma read_spec (n : nat) (s : Readable) (chunk : option Buffer) (s' : Readable) :
  Stream.read n s = (chunk, s') →
  from_option (λ c, c ≠ [] ∧ length c ≤ n) True chunk
  ∧ default [] chunk ++ Stream.remaining s' = Stream.remaining s
  ∧ upcoming s' = upcoming s ∧ ended s' = ended s
  ∧ endEmitted s' = endEmitted s ∧ flowing s' = flowing s
  ∧ destroyed s' = destroyed s ∧ closeEmitted s' = closeEmitted s.
Proof.
  unfold Stream.read, Stream.remaining. destruct s as [b u e es ee f d c]; simpl.
  repeat case_bool_decide; [| |destruct e; [destruct b as [|x b]|]];
    intros [= <- <-]; simpl; repeat split; try done.
  - intros Hnil. apply (f_equal length) in Hnil.
    rewrite length_take in Hnil. simpl in Hnil. lia.
  - rewrite length_take. lia.
  - by rewrite (assoc_L (++)), take_drop.
  - simpl in *. lia.
Qed.

Lemma once_readable_spec (s s' : Readable) :
  Stream.once_readable s = Some s' →
  Stream.remaining s' = Stream.remaining s
  ∧ ended s = false
  ∧ flowing s' = flowing s ∧ destroyed s' = destroyed s
  ∧ closeEmitted s' = closeEmitted s
  ∧ endScheduled s' = endScheduled s
  ∧ endEmitted s' = endEmitted s || endScheduled s
  ∧ s' = Stream.push_next (Stream.tick s).
Proof.
  unfold Stream.once_readable, Stream.push_next, Stream.tick, Stream.remaining.
  destruct s as [b u e es ee f d c]; simpl.
  destruct e, d; simpl; try done.
  destruct u as [|x u]; intros [= <-]; simpl; repeat split; try done.
  by rewrite (assoc_L (++)).
Qed.

Lemma Buffer_concat_exact (chunks : list Buffer) :
  Buffer_concat chunks (length (concat chunks)) = concat chunks.
Proof. unfold Buffer_concat. by rewrite take_app_length. Qed.



Lemma fresh_peekable (s : Readable) : fresh s → peekable s.
Proof. intros (Hs & ? & ? & ?). repeat split; try done. by rewrite Hs. Qed.

(** ** The four ways a [read] goes *)

Lemma read_enough (n : nat) (s : Readable) :
  0 < n → n ≤ length (buffered s) →
  Stream.read n s
  = (Some (take n (buffered s)), Stream.set_buffered (drop n (buffered s)) s).
Proof.
  intros ??. unfold Stream.read.
  rewrite bool_decide_eq_false_2 by lia. by rewrite bool_decide_eq_true_2.
Qed.

Lemma read_starved (n : nat) (s : Readable) :
  length (buffered s) < n → ended s = false → Stream.read n s = (None, s).
Proof.
  intros ? He. unfold Stream.read. rewrite He.
  case_bool_decide; [done|]. by rewrite bool_decide_eq_false_2 by lia.
Qed.

Lemma read_rest (n : nat) (s : Readable) :
  length (buffered s) < n → ended s = true → buffered s ≠ [] →
  Stream.read n s
  = (Some (buffered s), Stream.set_endScheduled (Stream.set_buffered [] s)).
Proof.
  intros ? He ?. unfold Stream.read. rewrite He.
  rewrite bool_decide_eq_false_2 by lia.
  rewrite bool_decide_eq_false_2 by lia. by destruct (buffered s).
Qed.

Lemma read_eof (n : nat) (s : Readable) :
  buffered s = [] → ended s = true →
  Stream.read n s = (None, if bool_decide (n = 0) then s else Stream.set_endScheduled s).
Proof.
  intros Hb He. unfold Stream.read. rewrite He, Hb.
  case_bool_decide; [done|]. simpl. by rewrite bool_decide_eq_false_2 by lia.
Qed.

(** ** The ways an iteration of the loop goes *)

Section loop_steps.
Context (fuel size total : nat) (chunks : list Buffer) (w : World).

Lemma loop_done :
  ¬ total < size →
  readHead_loop (S fuel) size total chunks w
  = (Return (Buffer_concat chunks total), w).
Proof. intros ?. simpl. by rewrite bool_decide_eq_false_2. Qed.

Lemma loop_read (c : Buffer) (s1 : Readable) :
  total < size →
  Stream.read (size - total) (source_of w) = (Some c, s1) →
  readHead_loop (S fuel) size total chunks w
  = readHead_loop fuel size (total + length c) (chunks ++ [c])
                  (with_source s1 w).
Proof.
  intros ? Hr. simpl. rewrite bool_decide_eq_true_2 by done.
  unfold Async.bind at 1, Async.source_read. fold (source_of w).
  by rewrite Hr.
Qed.

Lemma loop_break (s1 : Readable) :
  total < size →
  Stream.read (size - total) (source_of w) = (None, s1) →
  Stream.readableEnded s1 = true →
  readHead_loop (S fuel) size total chunks w
  = (Return (Buffer_concat chunks total), with_source s1 w).
Proof.
  intros ? Hr He. simpl. rewrite bool_decide_eq_true_2 by done.
  unfold Async.bind at 1, Async.source_read. fold (source_of w).
  rewrite Hr. fold (with_source s1 w).
  unfold Async.bind at 1, Async.source_readableEnded.
  fold (source_of (with_source s1 w)).
  by rewrite source_of_with_source, He.
Qed.

Lemma loop_wait (s1 s2 : Readable) :
  total < size →
  Stream.read (size - total) (source_of w) = (None, s1) →
  Stream.readableEnded s1 = false →
  Stream.once_readable s1 = Some s2 →
  readHead_loop (S fuel) size total chunks w
  = readHead_loop fuel size total chunks (with_source s2 w).
Proof.
  intros ? Hr He Ho. simpl. rewrite bool_decide_eq_true_2 by done.
  unfold Async.bind at 1, Async.source_read. fold (source_of w).
  rewrite Hr. fold (with_source s1 w).
  unfold Async.bind at 1, Async.source_readableEnded.
  fold (source_of (with_source s1 w)).
  rewrite source_of_with_source, He.
  unfold Async.bind at 1, Async.source_once_readable.
  fold (source_of (with_source s1 w)).
  rewrite source_of_with_source, Ho.
  fold (with_source s2 (with_source s1 w)). by rewrite with_source_twice.
Qed.

Lemma loop_hang (s1 : Readable) :
  total < size →
  Stream.read (size - total) (source_of w) = (None, s1) →
  Stream.readableEnded s1 = false →
  Stream.once_readable s1 = None →
  readHead_loop (S fuel) size total chunks w
  = (Hang, with_source (Stream.tick s1) w).
Proof.
  intros ? Hr He Ho. simpl. rewrite bool_decide_eq_true_2 by done.
  unfold Async.bind at 1, Async.source_read. fold (source_of w).
  rewrite Hr. fold (with_source s1 w).
  unfold Async.bind at 1, Async.source_readableEnded.
  fold (source_of (with_source s1 w)).
  rewrite source_of_with_source, He.
  unfold Async.bind at 1, Async.source_once_readable.
  fold (source_of (with_source s1 w)).
  rewrite source_of_with_source, Ho.
  fold (with_source (Stream.tick s1) (with_source s1 w)).
  by rewrite with_source_twice.
Qed.

End loop_steps.

(** The loop of [readHead] keeps this: the chunks collected so far,
    followed by what the source has still to deliver, are the bytes of the
    source.  When it returns, it returns the chunks it collected. *)
Lemma readHead_loop_inv (fuel : nat) :
  ∀ size total chunks w head w',
    total = length (concat chunks) →
    total ≤ size →
    readHead_loop fuel size total chunks w = (Return head, w') →
    ∃ s' more,
      w' = with_source s' w
      ∧ head = concat chunks ++ more
      ∧ more ++ Stream.remaining s' = Stream.remaining (source_of w)
      ∧ length head ≤ size
      ∧ flowing s' = flowing (source_of w)
      ∧ destroyed s' = destroyed (source_of w)
      ∧ closeEmitted s' = closeEmitted (source_of w)
      ∧ ((ended (source_of w) = true → upcoming (source_of w) = [])
         → ended s' = true → upcoming s' = []).
Proof.
  induction fuel as [|fuel IH]; intros size total chunks w head w' Ht Hle;
    [done|].
  destruct (decide (total < size)) as [Hlt|Hlt].
  - destruct (Stream.read (size - total) (source_of w)) as [chunk s1] eqn:Hr.
    pose proof (read_spec _ _ _ _ Hr) as (Hc & Hrem & Hu1 & He1 & Hee & Hf & Hd & Hce).
    destruct chunk as [c|]; simpl in Hc, Hrem.
    + rewrite (loop_read _ _ _ _ _ c s1) by done.
      intros Hloop.
      apply IH in Hloop as (s' & more & -> & -> & Hm & Hlen & ? & ? & ? & Hwf).
      * rewrite source_of_with_source in *.
        exists s', (c ++ more). rewrite with_source_twice.
        rewrite concat_app in *. simpl in *. rewrite app_nil_r in *.
        repeat split; try congruence.
        -- by rewrite !(assoc_L (++)).
        -- by rewrite <-Hrem, <-Hm, (assoc_L (++)).
        -- rewrite Hu1, He1 in Hwf. done.
      * rewrite concat_app, length_app. simpl. rewrite app_nil_r. lia.
      * destruct Hc. lia.
    + destruct (Stream.readableEnded s1) eqn:Hend.
      * rewrite (loop_break _ _ _ _ _ s1) by done.
        intros [= <- <-]. subst total.
        exists s1, []. rewrite Buffer_concat_exact, app_nil_r.
        repeat split; try done; try by rewrite <-Hrem.
        by rewrite Hu1, He1.
      * destruct (Stream.once_readable s1) as [s2|] eqn:Ho.
        2: { by rewrite (loop_hang _ _ _ _ _ s1). }
        rewrite (loop_wait _ _ _ _ _ s1 s2) by done.
        apply once_readable_spec in Ho as (Hrem2 & He2 & ? & ? & ? & _ & _ & Hs2).
        intros Hloop.
        apply IH in Hloop as (s' & more & -> & -> & Hm & Hlen & ? & ? & ? & Hwf);
          [|done..].
        rewrite source_of_with_source in *.
        exists s', more. rewrite with_source_twice.
        repeat split; try congruence.
        intros _. apply Hwf. rewrite Hs2.
        unfold Stream.push_next. simpl.
        destruct (upcoming s1); simpl; [done|]. by rewrite He2.
  - rewrite loop_done by done. intros [= <- <-]. subst total.
    exists (source_of w), []. rewrite with_source_id, Buffer_concat_exact, app_nil_r.
    repeat split; try done; lia.
Qed.

Lemma once_readable_push (s : Readable) :
  ended s = false → destroyed s = false →
  Stream.once_readable s = Some (Stream.push_next (Stream.tick s)).
Proof. unfold Stream.once_readable. simpl. by intros -> ->. Qed.

Lemma once_readable_ended (s : Readable) :
  ended s = true → Stream.once_readable s = None.
Proof. unfold Stream.once_readable. simpl. by intros ->. Qed.

(** A source that holds the bytes asked for in its buffer: the first
    [read] returns them and the loop is done.  Nothing is waited for. *)
Lemma readHead_loop_buffered (fuel size total : nat) (chunks : list Buffer)
    (w : World) :
  total < size →
  size - total ≤ length (buffered (source_of w)) →
  readHead_loop (2 + fuel) size total chunks w
  = (Return (Buffer_concat
               (chunks ++ [take (size - total) (buffered (source_of w))])
               size),
     with_source
       (Stream.set_buffered (drop (size - total) (buffered (source_of w)))
                            (source_of w)) w).
Proof.
  intros Hlt Hb. change (2 + fuel) with (S (S fuel)).
  erewrite loop_read; [|done|by apply read_enough; [lia|]].
  rewrite loop_done by (rewrite length_take; lia).
  rewrite length_take, Nat.min_l by done.
  by replace (total + (size - total)) with size by lia.
Qed.

(** The source has ended and its buffer is empty, and the loop wants more:
    [read] returns [null], ['end'] is not emitted yet, and the wait for
    ['readable'] is a wait for an event that does not come. *)
Lemma readHead_loop_drained (fuel size total : nat) (chunks : list Buffer) (w : World) :
  total < size →
  ended (source_of w) = true →
  buffered (source_of w) = [] →
  endEmitted (source_of w) = false →
  readHead_loop (S fuel) size total chunks w
  = (Hang, with_source (Stream.tick (Stream.set_endScheduled (source_of w))) w).
Proof.
  intros Hlt He Hb Hee.
  apply loop_hang; [done| | |].
  - rewrite read_eof by done. by rewrite bool_decide_eq_false_2 by lia.
  - done.
  - by apply once_readable_ended.
Qed.

(** A source that ends before the bytes asked for: the loop never returns.
    With fuel for one iteration per chunk to come and three more, it is
    seen to hang. *)
Lemma readHead_loop_short (fuel : nat) :
  ∀ size total chunks w,
    peekable (source_of w) →
    length (Stream.remaining (source_of w)) < size - total →
    ∃ w',
      readHead_loop fuel size total chunks w = (Hang, w')
      ∨ (readHead_loop fuel size total chunks w = (OutOfFuel, w')
         ∧ fuel < length (upcoming (source_of w))
                  + (if ended (source_of w) then 2 else 3)).
Proof.
  induction fuel as [|fuel IH]; intros size total chunks w Hp Hrem.
  { exists w. right. split; [done|]. destruct (ended _); lia. }
  assert (total < size) as Hlt by lia.
  assert (length (buffered (source_of w)) < size - total) as Hb.
  { unfold Stream.remaining in Hrem. rewrite length_app in Hrem. lia. }
  pose proof Hp as (Hee & Hd & Hes & Hu).
  destruct (ended (source_of w)) eqn:He.
  - destruct (buffered (source_of w)) as [|x b] eqn:Hbuf.
    + rewrite readHead_loop_drained by done. eauto.
    + erewrite loop_read; [|done|by apply read_rest; rewrite ?Hbuf].
      rewrite Hbuf.
      destruct fuel as [|fuel].
      * eexists. right. split; [done|]. rewrite (Hu eq_refl). simpl. lia.
      * rewrite readHead_loop_drained; rewrite ?source_of_with_source; eauto.
        simpl in Hb. simpl. lia.
  - assert (endScheduled (source_of w) = false) as Hes'.
    { destruct (endScheduled (source_of w)); [by specialize (Hes eq_refl)|done]. }
    erewrite loop_wait;
      [|done|by apply read_starved; rewrite ?He|done
       |by apply once_readable_push; rewrite ?He].
    set (s2 := Stream.push_next (Stream.tick (source_of w))).
    assert (Stream.remaining s2 = Stream.remaining (source_of w)) as Hr2.
    { unfold s2, Stream.remaining, Stream.push_next. simpl.
      destruct (upcoming (source_of w)); simpl; [done|].
      by rewrite (assoc_L (++)). }
    assert (peekable s2) as Hp2.
    { unfold s2, Stream.push_next. simpl.
      destruct (upcoming (source_of w)); repeat split; simpl;
        rewrite ?Hee, ?Hes', ?He; done. }
    destruct (IH size total chunks (with_source s2 w)) as (w' & [Hh|[Ho Hf]]);
      rewrite ?source_of_with_source, ?Hr2; try done.
    + eauto.
    + exists w'. right. split; [done|].
      rewrite source_of_with_source in Hf.
      unfold s2, Stream.push_next in Hf. simpl in Hf.
      destruct (upcoming (source_of w)); simpl in *; [lia|].
      rewrite He in Hf. lia.
Qed.

Lemma readHead_loop_short_hangs (fuel size total : nat) (chunks : list Buffer) (w : World) :
  peekable (source_of w) →
  length (Stream.remaining (source_of w)) < size - total →
  length (upcoming (source_of w)) + 3 ≤ fuel →
  ∃ w', readHead_loop fuel size total chunks w = (Hang, w').
Proof.
  intros Hp Hrem Hfuel.
  destruct (readHead_loop_short fuel size total chunks w Hp Hrem)
    as (w' & [Hh|[_ Hf]]); [eauto|].
  destruct (ended (source_of w)); lia.
Qed.

(** ** The piped source *)

(** A flowing source piped into a body stream that is still open: when
    the parser has pushed everything, the body stream has received the
    buffer and the chunks, in order, and has been ended. *)
Lemma pipe_delivers (u : list Buffer) :
  ∀ (b : Buffer) (e es ee : bool) (c : nat) (wr : Buffer) (pc : nat),
    (e = true → u = []) →
    ∃ s' p',
      Nat.iter (S (length u)) Pipe.turn
        (Pipe.flow_turn
           (mkStreams (mkReadable b u e es ee (Some true) false c)
                      (Some (mkPassThrough wr false false pc)) true))
      = mkStreams s' (Some p') true
      ∧ written p' = wr ++ b ++ concat u
      ∧ finished p' = true
      ∧ pt_destroyed p' = false.
Proof.
  induction u as [|x u IH]; intros b e es ee c wr pc He.
  - destruct e; simpl.
    + do 2 eexists. split; [reflexivity|]. simpl. by rewrite app_nil_r.
    + do 2 eexists. split; [reflexivity|]. simpl. by rewrite !app_nil_r.
  - destruct e; [by specialize (He eq_refl)|].
    change (length (x :: u)) with (S (length u)).
    rewrite Nat.iter_succ_r.
    destruct (IH ([] ++ x) false es ee c (wr ++ b) pc) as (s' & p' & Hi & Hw & Hf & Hd);
      [done|].
    exists s', p'. split; [exact Hi|]. split; [|done].
    rewrite Hw. simpl. by rewrite <-(assoc_L (++)).
Qed.

(** The stream put together from a head and the source it was peeked
    from delivers the head and then all the source has still to
    deliver. *)
Lemma reassemble_delivers (head : Buffer) (st : Streams) :
  destroyed (sourceStream st) = false →
  (ended (sourceStream st) = true → upcoming (sourceStream st) = []) →
  ∃ s' p',
    Pipe.run_to_end (reassemble head st) = mkStreams s' (Some p') true
    ∧ written p' = head ++ Stream.remaining (sourceStream st)
    ∧ finished p' = true
    ∧ pt_destroyed p' = false.
Proof.
  destruct st as [[b u e es ee f d c] body pd]. simpl. intros -> He.
  unfold Pipe.run_to_end, reassemble. simpl sourceStream.
  unfold Stream.set_flowing. simpl.
  apply (pipe_delivers u b e es ee c head 0 He).
Qed.

(** [readHead] throws no [HttpError]. *)
Lemma readHead_loop_no_throw (fuel : nat) :
  ∀ size total chunks w e w',
    readHead_loop fuel size total chunks w ≠ (Throw e, w').
Proof.
  induction fuel as [|fuel IH]; intros size total chunks w e w'; simpl; [done|].
  case_bool_decide; [|done].
  unfold Async.bind at 1, Async.source_read.
  destruct (Stream.read _ _) as [[c|] s1]; [apply IH|].
  unfold Async.bind at 1, Async.source_readableEnded. simpl.
  destruct (Stream.readableEnded s1); [done|].
  unfold Async.bind at 1, Async.source_once_readable. simpl.
  destruct (Stream.once_readable s1); [apply IH|done].
Qed.

(* ===================================================================== *)
(** * The pipeline, case by case *)
(* ===================================================================== *)

Lemma createConvertedStream_unfold (fuel : nat) (format : jsstring)
    (keepMetadata : bool) (w : World) :
  Server.createConvertedStream fuel format keepMetadata w =
  match readHead fuel 4100 (peek_start w) with
  | (Return head, w1) =>
    let magic := detectMagic head in
    if negb (valid magic) then (Throw SIGNATURE_ERROR, rejected w1)
    else if JS.eqs format (js "svg") && negb (JS.eqs (kind magic) (js "svg"))
    then (Throw SVG_ONLY_ERROR, rejected w1)
    else if JS.eqs format (js "svg") then
      (Return {| stream := BodyStream;
                 contentType := js "image/svg+xml";
                 cleanup := destroy_both |},
       reassembled head w1)
    else
      (Return {| stream := Transformed (transformer_for format keepMetadata);
                 contentType := contentTypeForFormat format;
                 cleanup := destroy_both |},
       Async.add_stage Transform (reassembled head w1))
  | (Throw e, w1) => (Throw e, w1)
  | (Hang, w1) => (Hang, w1)
  | (OutOfFuel, w1) => (OutOfFuel, w1)
  end.
Proof.
  unfold Server.createConvertedStream, Async.bind, Async.log,
    Async.on_source, Async.on_streams, Async.throw, Async.ret.
  change (Async.add_stage HeadPeek _) with (peek_start w).
  destruct (readHead fuel 4100 (peek_start w)) as [[head|e| |] w1]; try done.
  simpl. destruct (valid (detectMagic head)); simpl; [|done].
  destruct (JS.eqs format (js "svg")); simpl.
  - by destruct (JS.eqs (kind (detectMagic head)) (js "svg")).
  - unfold transformer_for. by destruct keepMetadata.
Qed.

Lemma Server_convert_unfold (fuel : nat) (request : Request) (w : World) :
  Server.convert fuel request w =
  let format := parse_format request in
  let keepMetadata := parse_keepMetadata request in
  if negb (isAllowedFormat format) then
    (Return (error_reply 400 UNSUPPORTED_FORMAT), w)
  else if negb (filePresent w) then
    (Return (error_reply 400 (js "No file uploaded")),
     Async.add_stage FileRead w)
  else
    match Server.createConvertedStream fuel format keepMetadata
            (Async.add_stage FileRead w) with
    | (Return converted, w') =>
      (Return {| code := 200;
                 replyType := Some (contentType converted);
                 replyHeaders := [content_disposition format];
                 payload := StreamPayload (stream converted) |},
       Async.add_listener (cleanup converted) w')
    | (Throw e, w') => (Return (error_reply (statusCode e) (message e)), w')
    | (Hang, w') => (Hang, w')
    | (OutOfFuel, w') => (OutOfFuel, w')
    end.
Proof.
  unfold Server.convert. simpl.
  destruct (isAllowedFormat (parse_format request)); simpl; [|done].
  unfold Async.bind at 1, Async.request_file.
  destruct (filePresent w); simpl; [|done].
  unfold Async.bind, Async.try.
  by destruct (Server.createConvertedStream _ _ _ _) as [[cr|e| |] w'].
Qed.

(** The single-route server does what [server.js] does; it only leaves
    the [Content-Disposition] header out when it passes an SVG through. *)
Lemma Part000_convert_unfold (fuel : nat) (request : Request) (w : World) :
  Part000.convert fuel request w =
  let format := parse_format request in
  let keepMetadata := parse_keepMetadata request in
  if negb (isAllowedFormat format) then
    (Return (error_reply 400 UNSUPPORTED_FORMAT), w)
  else if negb (filePresent w) then
    (Return (error_reply 400 (js "No file uploaded")),
     Async.add_stage FileRead w)
  else
    match Server.createConvertedStream fuel format keepMetadata
            (Async.add_stage FileRead w) with
    | (Return converted, w') =>
      (Return {| code := 200;
                 replyType := Some (contentType converted);
                 replyHeaders :=
                   if JS.eqs format (js "svg") then []
                   else [content_disposition format];
                 payload := StreamPayload (stream converted) |},
       Async.add_listener (cleanup converted) w')
    | (Throw e, w') => (Return (error_reply (statusCode e) (message e)), w')
    | (Hang, w') => (Hang, w')
    | (OutOfFuel, w') => (OutOfFuel, w')
    end.
Proof.
  unfold Part000.convert. simpl.
  destruct (isAllowedFormat (parse_format request)); simpl; [|done].
  unfold Async.bind at 1, Async.request_file.
  destruct (filePresent w); simpl; [|done].
  rewrite createConvertedStream_unfold.
  unfold Async.bind, Async.log, Async.on_source, Async.on_streams,
    Async.on_close, Async.ret.
  change (Async.add_stage HeadPeek _)
    with (peek_start (Async.add_stage FileRead w)).
  destruct (readHead fuel 4100 _) as [[head|e| |] w1] eqn:Hr; try done.
  2: { by apply readHead_loop_no_throw in Hr. }
  simpl. destruct (valid (detectMagic head)); simpl; [|done].
  destruct (JS.eqs (parse_format request) (js "svg")); simpl.
  - by destruct (JS.eqs (kind (detectMagic head)) (js "svg")).
  - unfold transformer_for. by destruct (parse_keepMetadata request).
Qed.

(* ===================================================================== *)
(** * The head peek and the reassembled stream *)
(* ===================================================================== *)

Lemma peek_start_source (w : World) :
  source_of (peek_start w) = Stream.set_flowing false (source_of w).
Proof. by destruct w as [? [] ? ?]. Qed.

(** When the pipeline returns, the stream it put together gives back the
    source. *)
Lemma createConvertedStream_round_trip (fuel : nat) (format : jsstring)
    (keepMetadata : bool) (w : World) (converted : ConversionResult)
    (w' : World) :
  destroyed (source_of w) = false →
  (ended (source_of w) = true → upcoming (source_of w) = []) →
  Server.createConvertedStream fuel format keepMetadata w
  = (Return converted, w') →
  round_trip w w'.
Proof.
  intros Hd Hwf. rewrite createConvertedStream_unfold.
  destruct (readHead fuel 4100 (peek_start w)) as [[head|e| |] w1] eqn:Hr;
    try done.
  apply readHead_loop_inv in Hr
    as (s' & more & -> & -> & Hm & _ & _ & Hd' & _ & Hwf'); [|done|lia].
  rewrite peek_start_source in Hm, Hd', Hwf'. simpl in Hd', Hwf'.
  assert (∃ p s'', Pipe.run_to_end (reassemble more (streams (with_source s' (peek_start w))))
                   = mkStreams s'' (Some p) true
                   ∧ written p = Stream.remaining (source_of w)
                   ∧ finished p = true) as (p & s'' & Hrun & Hw & Hf).
  { destruct (reassemble_delivers more (streams (with_source s' (peek_start w))))
      as (s'' & p & Hrun & Hw & Hf & _).
    - fold (source_of (with_source s' (peek_start w))).
      rewrite source_of_with_source. congruence.
    - fold (source_of (with_source s' (peek_start w))).
      rewrite source_of_with_source. by apply Hwf'.
    - exists p, s''. split; [done|]. split; [|done].
      fold (source_of (with_source s' (peek_start w))) in Hw.
      rewrite source_of_with_source in Hw. by rewrite Hw, Hm. }
  simpl.
  destruct (valid (detectMagic _)); simpl; [|done].
  destruct (JS.eqs format (js "svg") && _); [done|].
  destruct (JS.eqs format (js "svg")); intros [= <- <-];
    exists p; (split; [|done]);
    change (Pipe.run_to_end _)
      with (Pipe.run_to_end
              (reassemble more (streams (with_source s' (peek_start w)))));
    by rewrite Hrun.
Qed.

(** The only [HttpError]s of the pipeline are the two signature errors. *)
Lemma createConvertedStream_throws (fuel : nat) (format : jsstring)
    (keepMetadata : bool) (w : World) (e : HttpError) (w' : World) :
  Server.createConvertedStream fuel format keepMetadata w = (Throw e, w') →
  e = SIGNATURE_ERROR ∨ e = SVG_ONLY_ERROR.
Proof.
  rewrite createConvertedStream_unfold.
  destruct (readHead fuel 4100 (peek_start w)) as [[head|e'| |] w1] eqn:Hr;
    try done.
  - simpl. destruct (valid (detectMagic head)); simpl; [|intros [= <- <-]; by left].
    destruct (JS.eqs format (js "svg") && _); [intros [= <- <-]; by right|].
    by destruct (JS.eqs format (js "svg")).
  - by apply readHead_loop_no_throw in Hr.
Qed.

(** A source with at least [size] bytes in its buffer: [readHead] returns
    the first [size] of them and leaves the rest in the source. *)
Lemma readHead_buffered (fuel size : nat) (w : World) :
  0 < size →
  size ≤ length (buffered (source_of w)) →
  readHead (2 + fuel) size w
  = (Return (take size (buffered (source_of w))),
     with_source
       (Stream.set_buffered (drop size (buffered (source_of w)))
                            (source_of w)) w).
Proof.
  intros Hs Hb. unfold readHead.
  rewrite readHead_loop_buffered by lia. rewrite Nat.sub_0_r.
  do 2 f_equal. unfold Buffer_concat. simpl. rewrite app_nil_r.
  rewrite take_app_le by (rewrite length_take; lia).
  rewrite take_take. by rewrite Nat.min_id.
Qed.

(** A source of fewer than [size] bytes: [readHead] never returns. *)
Lemma readHead_short_source (fuel size : nat) (w : World) :
  fresh (source_of w) →
  length (Stream.remaining (source_of w)) < size →
  (∀ head w', readHead fuel size w ≠ (Return head, w'))
  ∧ (length (upcoming (source_of w)) + 3 ≤ fuel →
     ∃ w', readHead fuel size w = (Hang, w')).
Proof.
  intros Hf Hlen. unfold readHead. split.
  - intros head w' Hr.
    destruct (readHead_loop_short fuel size 0 [] w) as (w2 & [H|[H _]]);
      [by apply fresh_peekable|lia|congruence..].
  - intros Hfuel. apply readHead_loop_short_hangs;
      [by apply fresh_peekable|lia|done].
Qed.

(** A source with its first 4100 bytes in the buffer, and these pass the
    checks: the pipeline returns. *)
Lemma createConvertedStream_buffered (fuel : nat) (format : jsstring)
    (keepMetadata : bool) (w : World) :
  4100 ≤ length (buffered (source_of w)) →
  valid (detectMagic (take 4100 (buffered (source_of w)))) = true →
  (format = js "svg" →
   kind (detectMagic (take 4100 (buffered (source_of w)))) = js "svg") →
  ∃ converted w',
    Server.createConvertedStream (2 + fuel) format keepMetadata w
    = (Return converted, w').
Proof.
  intros Hlen Hv Hk.
  assert (buffered (source_of (peek_start w)) = buffered (source_of w)) as Hb.
  { rewrite peek_start_source. by destruct (source_of w). }
  rewrite createConvertedStream_unfold, readHead_buffered by (rewrite ?Hb; lia).
  rewrite Hb. simpl. rewrite Hv. simpl.
  destruct (JS.eqs format (js "svg")) eqn:Hs; simpl; [|by eauto].
  apply eqs_true in Hs. rewrite (Hk Hs).
  change (JS.eqs (js "svg") (js "svg")) with true. simpl. by eauto.
Qed.

(** Whatever comes of it, the peek touches the source only. *)
Lemma readHead_loop_touches_source (fuel : nat) :
  ∀ size total chunks w,
    ∃ s', (readHead_loop fuel size total chunks w).2 = with_source s' w.
Proof.
  induction fuel as [|fuel IH]; intros size total chunks w.
  { exists (source_of w). by rewrite with_source_id. }
  destruct (decide (total < size)) as [Hlt|Hlt].
  2: { rewrite loop_done by done. exists (source_of w).
       by rewrite with_source_id. }
  destruct (Stream.read (size - total) (source_of w)) as [[c|] s1] eqn:Hr.
  - rewrite (loop_read _ _ _ _ _ c s1) by done.
    destruct (IH size (total + length c) (chunks ++ [c]) (with_source s1 w))
      as (s' & ->).
    exists s'. by rewrite with_source_twice.
  - destruct (Stream.readableEnded s1) eqn:He.
    + rewrite (loop_break _ _ _ _ _ s1) by done. by exists s1.
    + destruct (Stream.once_readable s1) as [s2|] eqn:Ho.
      * rewrite (loop_wait _ _ _ _ _ s1 s2) by done.
        destruct (IH size total chunks (with_source s2 w)) as (s' & ->).
        exists s'. by rewrite with_source_twice.
      * rewrite (loop_hang _ _ _ _ _ s1) by done. by eexists.
Qed.

(** A source of fewer than 4100 bytes: the peek does not return, so the
    pipeline stops in it, with the source as the peek left it and the
    rest of the request as it was. *)
Lemma createConvertedStream_short_source (fuel : nat) (format : jsstring)
    (keepMetadata : bool) (w : World) :
  fresh (source_of w) →
  length (Stream.remaining (source_of w)) < 4100 →
  ∃ s',
    Server.createConvertedStream fuel format keepMetadata w
    = (Hang, with_source s' (peek_start w))
    ∨ Server.createConvertedStream fuel format keepMetadata w
      = (OutOfFuel, with_source s' (peek_start w))
      ∧ fuel < length (upcoming (source_of w)) + 3.
Proof.
  intros Hf Hlen.
  assert (fresh (source_of (peek_start w))) as Hf'.
  { rewrite peek_start_source. by destruct (source_of w). }
  assert (Stream.remaining (source_of (peek_start w))
          = Stream.remaining (source_of w)) as Hrem.
  { rewrite peek_start_source. by destruct (source_of w). }
  assert (upcoming (source_of (peek_start w)) = upcoming (source_of w)) as Hup.
  { rewrite peek_start_source. by destruct (source_of w). }
  destruct (readHead_short_source fuel 4100 (peek_start w) Hf')
    as (Hno & Hhang); [by rewrite Hrem|].
  destruct (readHead_loop_touches_source fuel 4100 0 [] (peek_start w))
    as (s' & Hw).
  fold (readHead fuel 4100 (peek_start w)) in Hw.
  rewrite createConvertedStream_unfold.
  destruct (readHead fuel 4100 (peek_start w)) as [[head|e| |] w1] eqn:Hr;
    simpl in Hw; subst w1.
  - by destruct (Hno _ _ eq_refl).
  - by apply readHead_loop_no_throw in Hr.
  - exists s'. by left.
  - exists s'. right. split; [done|]. rewrite Hup in Hhang.
    destruct (decide (length (upcoming (source_of w)) + 3 ≤ fuel))
      as [Hfuel|Hfuel]; [|lia].
    by destruct (Hhang Hfuel) as (w2 & Hw2).
Qed.

(** C1, where the code breaks it.  The claim is made of every source,
    also of one shorter than the 4100 bytes of the peek.  For such an
    upload no reassembled stream is ever made: [readHead] does not return
    (the defect of C4), so the pipeline of [server.js] does not return
    and neither handler replies; no body stream is created and the bytes
    of the upload are delivered to nobody.  With fuel for every chunk of
    the source the request is seen to hang.

    Where the peek finds its 4100 bytes in the buffer and they pass the
    checks, the code does what the claim says: both handlers reply 200,
    and the stream they put together (the peeked head written first, the
    rest of the source piped after it) delivers, read to its end, exactly
    the bytes of the source, in their order. *)
Theorem short_upload_is_not_reassembled (fuel : nat) (request : Request)
    (w : World) :
  fresh (source_of w) →
  filePresent w = true →
  bodyStream (streams w) = None →
  isAllowedFormat (parse_format request) = true →
  (length (Stream.remaining (source_of w)) < 4100 →
   (∀ format keepMetadata converted w',
      Server.createConvertedStream fuel format keepMetadata w
      ≠ (Return converted, w'))
   ∧ (∀ reply w', Server.convert fuel request w ≠ (Return reply, w'))
   ∧ (∀ reply w', Part000.convert fuel request w ≠ (Return reply, w'))
   ∧ bodyStream (streams (Server.convert fuel request w).2) = None
   ∧ bodyStream (streams (Part000.convert fuel request w).2) = None
   ∧ (length (upcoming (source_of w)) + 3 ≤ fuel →
      (Server.convert fuel request w).1 = Hang
      ∧ (Part000.convert fuel request w).1 = Hang))
  ∧ (4100 ≤ length (buffered (source_of w)) →
     2 ≤ fuel →
     valid (detectMagic (take 4100 (buffered (source_of w)))) = true →
     (parse_format request = js "svg" →
      kind (detectMagic (take 4100 (buffered (source_of w)))) = js "svg") →
     ∃ reply reply' w',
       Server.convert fuel request w = (Return reply, w')
       ∧ Part000.convert fuel request w = (Return reply', w')
       ∧ code reply = 200%N ∧ code reply' = 200%N
       ∧ round_trip w w').
Proof.
  intros Hf Hfile Hbody Ha.
  set (w0 := Async.add_stage FileRead w).
  assert (source_of w0 = source_of w) as Hsrc by (by destruct w).
  split.
  - intros Hlen.
    assert (∀ format km converted w',
              Server.createConvertedStream fuel format km w
              ≠ (Return converted, w')) as Hnone.
    { intros format km converted w' Hr.
      destruct (createConvertedStream_short_source fuel format km w Hf Hlen)
        as (s'' & [Hc'|[Hc' _]]); by rewrite Hc' in Hr. }
    split; [exact Hnone|].
    rewrite Server_convert_unfold, Part000_convert_unfold. simpl.
    rewrite Ha, Hfile. simpl. fold w0.
    destruct (createConvertedStream_short_source fuel (parse_format request)
                (parse_keepMetadata request) w0)
      as (s' & [Hc|[Hc Hfuel]]); [by rewrite Hsrc..| |];
      rewrite Hc; simpl.
    + repeat split; try done; by destruct w as [? [] ? ?].
    + rewrite Hsrc in Hfuel.
      repeat split; try done; try (by destruct w as [? [] ? ?]); lia.
  - intros Hlen Hfuel Hv Hk.
    destruct fuel as [|[|fuel]]; [lia..|].
    destruct (createConvertedStream_buffered fuel (parse_format request)
                (parse_keepMetadata request) w0)
      as (converted & w1 & Hc); [by rewrite Hsrc..|].
    change (2 + fuel) with (S (S fuel)) in Hc.
    pose proof Hc as Hrt.
    apply createConvertedStream_round_trip in Hrt as (body & Hb & Hw & Hfin);
      [|rewrite Hsrc; apply Hf..].
    do 3 eexists.
    rewrite Server_convert_unfold, Part000_convert_unfold. simpl.
    rewrite Ha, Hfile. simpl. fold w0. rewrite Hc.
    split; [reflexivity|]. split; [reflexivity|].
    split; [done|]. split; [done|].
    exists body. simpl. by rewrite Hb, Hw, Hsrc.
Qed.

Lemma short_upload_is_not_reassembled_witness :
  (∀ reply w',
     Part000.convert 10 (request_with (js "png")) tiny_upload
     ≠ (Return reply, w'))
  ∧ (Server.convert 10 (request_with (js "png")) tiny_upload).1 = Hang
  ∧ ∃ w', round_trip png_upload w'.
Proof.
  destruct (short_upload_is_not_reassembled 10 (request_with (js "png"))
              tiny_upload) as (Hshort & _);
    [by vm_compute|done|done|done|].
  destruct Hshort as (_ & _ & Hp & _ & _ & Hh); [vm_compute; lia|].
  destruct (short_upload_is_not_reassembled 10 (request_with (js "png"))
              png_upload) as (_ & Hlong);
    [by vm_compute|done|done|done|].
  destruct Hlong as (reply & reply' & w' & _ & _ & _ & _ & Hrt);
    [vm_compute; lia|lia|by vm_compute|done|].
  split; [exact Hp|]. split; [|by exists w'].
  apply Hh. vm_compute. lia.
Defined.

(** C4, at an upload shorter than the peek.  The six bytes of [tiny_file]
    are in the buffer and the end of the stream has been pushed:
    [readHead] reads the six bytes, the next [read] returns [null],
    [readableEnded] is still false, and the wait for ['readable'] never
    ends.  The same happens when the six bytes are still to arrive. *)
Theorem readHead_hangs_on_short_source (fuel : nat) :
  (readHead (3 + fuel) 4100 (upload_of (source_with tiny_file [] true))).1
  = Hang
  ∧ (readHead (4 + fuel) 4100 (upload_of (source_with [] [tiny_file] false))).1
    = Hang.
Proof.
  split.
  - destruct (proj2 (readHead_short_source (3 + fuel) 4100
                       (upload_of (source_with tiny_file [] true))
                       ltac:(by repeat split) ltac:(vm_compute; lia)))
      as [w' ->]; [simpl; lia|done].
  - destruct (proj2 (readHead_short_source (4 + fuel) 4100
                       (upload_of (source_with [] [tiny_file] false))
                       ltac:(by repeat split) ltac:(vm_compute; lia)))
      as [w' ->]; [simpl; lia|done].
Qed.

(* ===================================================================== *)
(** * Signature errors *)
(* ===================================================================== *)

Lemma destroy_destroyed (s : Readable) : destroyed (Stream.destroy s) = true.
Proof. unfold Stream.destroy. by destruct (destroyed s) eqn:E. Qed.

Lemma destroy_twice (s : Readable) :
  Stream.destroy (Stream.destroy s) = Stream.destroy s.
Proof. unfold Stream.destroy. by destruct (destroyed s) eqn:E; simpl; rewrite ?E. Qed.

Lemma pt_destroy_destroyed (p : PassThrough) :
  pt_destroyed (Stream.pt_destroy p) = true.
Proof. unfold Stream.pt_destroy. by destruct (pt_destroyed p) eqn:E. Qed.

Lemma pt_destroy_twice (p : PassThrough) :
  Stream.pt_destroy (Stream.pt_destroy p) = Stream.pt_destroy p.
Proof.
  unfold Stream.pt_destroy. by destruct (pt_destroyed p) eqn:E; simpl; rewrite ?E.
Qed.

(** What the peek leaves of the world it started in. *)
Lemma readHead_frame (fuel : nat) (w : World) (head : Buffer) (w1 : World) :
  readHead fuel 4100 (peek_start w) = (Return head, w1) →
  ∃ s', w1 = with_source s' (peek_start w)
        ∧ destroyed s' = destroyed (source_of w).
Proof.
  intros Hr.
  apply readHead_loop_inv in Hr as (s' & more & -> & _ & _ & _ & _ & Hd & _);
    [|done|lia].
  exists s'. split; [done|]. by rewrite Hd, peek_start_source.
Qed.

(** C3. When the peeked head is classified as invalid, and when the
    target format is SVG and the head is not classified as SVG, the
    pipeline fails with status 415: with "Unsupported or invalid image
    signature" when the head is invalid, with "SVG output only supported
    for SVG inputs" when it is valid and of another kind.  The source
    stream is destroyed, no body stream is made, no close listener is
    registered and no transformer is created: the stages of the request
    end with the classification.  Both servers reply 415 with the message.
    So a request for SVG output is answered with 200 only when the head is
    classified as SVG. *)
Theorem signature_errors (fuel : nat) (request : Request) (w : World)
    (head : Buffer) (w1 : World) :
  isAllowedFormat (parse_format request) = true →
  filePresent w = true →
  readHead fuel 4100 (peek_start (Async.add_stage FileRead w))
  = (Return head, w1) →
  let format := parse_format request in
  let magic := detectMagic head in
  (valid magic = false ∨ (format = js "svg" ∧ kind magic ≠ js "svg") →
   let e := if valid magic then SVG_ONLY_ERROR else SIGNATURE_ERROR in
   Server.createConvertedStream fuel format (parse_keepMetadata request)
     (Async.add_stage FileRead w)
   = (Throw e, rejected w1)
   ∧ statusCode e = 415%N
   ∧ Server.convert fuel request w
     = (Return (error_reply 415 (message e)), rejected w1)
   ∧ Part000.convert fuel request w
     = (Return (error_reply 415 (message e)), rejected w1)
   ∧ destroyed (source_of (rejected w1)) = true
   ∧ bodyStream (streams (rejected w1)) = bodyStream (streams w)
   ∧ stages (rejected w1) = stages w ++ [FileRead; HeadPeek; Classify]
   ∧ closeListeners (rejected w1) = closeListeners w)
  ∧ (format = js "svg" →
     ∀ reply w',
       Server.convert fuel request w = (Return reply, w')
       ∨ Part000.convert fuel request w = (Return reply, w') →
       code reply = 200%N →
       kind magic = js "svg").
Proof.
  intros Hallowed Hfile Hr format magic. subst format magic. split.
  - intros Hbad e.
    assert (statusCode e = 415%N) as He.
    { unfold e. by destruct (valid (detectMagic head)). }
    assert (Server.createConvertedStream fuel (parse_format request)
              (parse_keepMetadata request) (Async.add_stage FileRead w)
            = (Throw e, rejected w1)) as Hc.
    { rewrite createConvertedStream_unfold, Hr. simpl. unfold e.
      destruct (valid (detectMagic head)); simpl; [|done].
      destruct Hbad as [|[Hf Hk]]; [done|].
      apply eqs_true in Hf. apply eqs_false in Hk.
      by rewrite Hf, Hk. }
    split; [done|]. split; [done|].
    rewrite Server_convert_unfold, Part000_convert_unfold. simpl.
    rewrite Hallowed, Hfile, Hc. simpl. rewrite He.
    split; [done|]. split; [done|].
    apply readHead_frame in Hr as (s' & -> & Hd).
    unfold rejected. rewrite source_of_with_source.
    split; [apply destroy_destroyed|].
    destruct w as [? [] ? ?]; simpl. by rewrite <-!(assoc_L (++)).
  - intros Hf reply w' Hreply Hcode.
    rewrite Server_convert_unfold, Part000_convert_unfold in Hreply.
    simpl in Hreply.
    rewrite Hallowed, Hfile, createConvertedStream_unfold, Hr in Hreply.
    simpl in Hreply.
    apply eqs_true in Hf. rewrite Hf in Hreply.
    destruct (valid (detectMagic head)); simpl in Hreply;
      [|by destruct Hreply as [[= <- <-]|[= <- <-]]].
    destruct (JS.eqs (kind (detectMagic head)) (js "svg")) eqn:Hk;
      simpl in Hreply.
    + by apply eqs_true in Hk.
    + by destruct Hreply as [[= <- <-]|[= <- <-]].
Qed.

Lemma signature_errors_witness :
  (Server.convert 5 (request_with (js "avif")) text_upload).1
  = Return (error_reply 415 (js "Unsupported or invalid image signature")).
Proof.
  edestruct (signature_errors 5 (request_with (js "avif")) text_upload)
    as [H _].
  - vm_compute. reflexivity.
  - reflexivity.
  - vm_compute. reflexivity.
  - destruct H as (_ & _ & -> & _).
    + left. vm_compute. reflexivity.
    + vm_compute. reflexivity.
Defined.

(* ===================================================================== *)
(** * Cleanup *)
(* ===================================================================== *)

Lemma destroy_both_twice (st : Streams) :
  destroy_both (destroy_both st) = destroy_both st.
Proof.
  unfold destroy_both. simpl. rewrite destroy_twice.
  destruct (bodyStream st) as [p|]; simpl; [|done]. by rewrite pt_destroy_twice.
Qed.

Lemma destroy_both_iter (n : nat) (st : Streams) :
  Nat.iter (S n) destroy_both st = destroy_both st.
Proof.
  induction n as [|n IH]; [done|].
  change (Nat.iter (S (S n)) destroy_both st)
    with (destroy_both (Nat.iter (S n) destroy_both st)).
  by rewrite IH, destroy_both_twice.
Qed.

(** The cleanup of both servers, on the world of a request that was
    answered with a stream. *)
Lemma destroy_both_releases (w : World) :
  is_Some (bodyStream (streams w)) → releases_once destroy_both w.
Proof.
  intros [p Hp]. split; [apply destroy_both_iter|]. split.
  - apply destroy_destroyed.
  - exists (Stream.pt_destroy p). unfold destroy_both. simpl. rewrite Hp.
    split; [done|]. apply pt_destroy_destroyed.
Qed.

(** With the cleanup as its one ['close'] listener, a response that is
    closed again stays as the first close left it. *)
Lemma fire_close_once (w : World) (n : nat) :
  closeListeners w = [destroy_both] →
  Nat.iter (S n) fire_close w = fire_close w.
Proof.
  intros Hl.
  assert (∀ w0, closeListeners w0 = [destroy_both] →
                fire_close (fire_close w0) = fire_close w0) as Htwice.
  { intros [fp st sg cl]. simpl. intros ->. unfold fire_close. simpl.
    unfold Async.set_streams. simpl. by rewrite destroy_both_twice. }
  induction n as [|n IH]; [done|].
  change (Nat.iter (S (S n)) fire_close w)
    with (fire_close (Nat.iter (S n) fire_close w)).
  rewrite IH. by apply Htwice.
Qed.

(** A pipeline that returns has made a body stream, and its cleanup is
    the closure that destroys the source and the body stream. *)
Lemma createConvertedStream_returns (fuel : nat) (format : jsstring)
    (keepMetadata : bool) (w : World) (converted : ConversionResult)
    (w' : World) :
  Server.createConvertedStream fuel format keepMetadata w
  = (Return converted, w') →
  cleanup converted = destroy_both
  ∧ is_Some (bodyStream (streams w'))
  ∧ closeListeners w' = closeListeners w.
Proof.
  rewrite createConvertedStream_unfold.
  destruct (readHead fuel 4100 (peek_start w)) as [[head|e| |] w1] eqn:Hr;
    try done.
  apply readHead_frame in Hr as (s' & -> & _).
  simpl. destruct (valid (detectMagic head)); simpl; [|done].
  destruct (JS.eqs format (js "svg") && _); [done|].
  destruct (JS.eqs format (js "svg")); intros [= <- <-]; simpl;
    (split; [done|]); (split; [by eexists|]); by destruct w as [? [] ? ?].
Qed.

(** C5. The cleanup of a conversion result destroys the source stream
    and the body stream, and running it again, any number of times, leaves
    the streams as the first run left them: ['close'] is emitted once by
    each stream.  It is a total function of the streams, it throws
    nothing.  Both servers register it as the one ['close'] listener of the
    response, so the same holds of a client that goes away more than
    once. *)
Theorem cleanup_idempotent (fuel : nat) (w w' : World) :
  (∀ format keepMetadata converted,
     Server.createConvertedStream fuel format keepMetadata w
     = (Return converted, w') →
     releases_once (cleanup converted) w')
  ∧ (∀ request reply,
       Server.convert fuel request w = (Return reply, w')
       ∨ Part000.convert fuel request w = (Return reply, w') →
       code reply = 200%N →
       ∃ listener,
         closeListeners w' = closeListeners w ++ [listener]
         ∧ releases_once listener w'
         ∧ (closeListeners w = [] →
            ∀ n, Nat.iter (S n) fire_close w' = fire_close w')).
Proof.
  split.
  - intros format km converted Hc.
    apply createConvertedStream_returns in Hc as (-> & Hb & _).
    by apply destroy_both_releases.
  - intros request reply Hreply Hcode.
    rewrite Server_convert_unfold, Part000_convert_unfold in Hreply.
    simpl in Hreply.
    destruct (isAllowedFormat _); simpl in Hreply;
      [|destruct Hreply as [[= <- <-]|[= <- <-]]; done].
    destruct (filePresent w); simpl in Hreply;
      [|destruct Hreply as [[= <- <-]|[= <- <-]]; done].
    destruct (Server.createConvertedStream _ _ _ _) as [[cr|e| |] w2] eqn:Hc;
      try (destruct Hreply as [?|?]; done).
    + apply createConvertedStream_returns in Hc as (Hcl & Hb & Hl).
      assert (w' = Async.add_listener destroy_both w2) as ->.
      { rewrite Hcl in Hreply. by destruct Hreply as [[= _ <-]|[= _ <-]]. }
      exists destroy_both. simpl. rewrite Hl.
      split; [by destruct w as [? [] ? ?]|].
      split; [by apply destroy_both_releases|].
      intros Hnil n. apply fire_close_once. simpl.
      rewrite Hl. simpl. by rewrite Hnil.
    + apply createConvertedStream_throws in Hc.
      destruct Hreply as [[= <- <-]|[= <- <-]]; by destruct Hc as [->| ->].
Qed.

Lemma cleanup_idempotent_witness :
  ∃ w', releases_once destroy_both w'.
Proof.
  eexists.
  eapply (proj1 (cleanup_idempotent 5 png_upload _) (js "jpeg") true
            {| stream := _; contentType := _; cleanup := destroy_both |}).
  vm_compute. reflexivity.
Defined.

(* ===================================================================== *)
(** * Format policy *)
(* ===================================================================== *)

Lemma isAllowedFormat_spec (format : jsstring) :
  isAllowedFormat format = true ↔ format ∈ allowed_tokens.
Proof.
  unfold isAllowedFormat, allowed_tokens.
  rewrite !orb_true_iff, !eqs_true, !elem_of_cons, elem_of_nil. tauto.
Qed.

(** C6. A request whose format token is not one of the allowed tokens is
    answered with status 400 and the world is left as it was: the file
    field is not read, so there is no peek, no classification and no
    transformer.  This holds of both servers, whatever was uploaded. *)
Theorem unknown_format_rejected (fuel : nat) (request : Request) (w : World) :
  parse_format request ∉ allowed_tokens →
  Server.convert fuel request w
  = (Return (error_reply 400 UNSUPPORTED_FORMAT), w)
  ∧ Part000.convert fuel request w
    = (Return (error_reply 400 UNSUPPORTED_FORMAT), w).
Proof.
  intros Hnot. rewrite Server_convert_unfold, Part000_convert_unfold. simpl.
  destruct (isAllowedFormat (parse_format request)) eqn:Ha; [|done].
  by apply isAllowedFormat_spec in Ha.
Qed.

Lemma unknown_format_rejected_witness :
  Server.convert 5 (request_with (js "bogus")) png_upload
  = (Return (error_reply 400 UNSUPPORTED_FORMAT), png_upload).
Proof.
  apply (unknown_format_rejected 5 (request_with (js "bogus")) png_upload).
  apply (bool_decide_unpack _). vm_compute. exact I.
Defined.

(** The result of a pipeline that returns. *)
Lemma createConvertedStream_result (fuel : nat) (format : jsstring)
    (keepMetadata : bool) (w : World) (converted : ConversionResult)
    (w' : World) :
  Server.createConvertedStream fuel format keepMetadata w
  = (Return converted, w') →
  converted =
  if JS.eqs format (js "svg") then
    {| stream := BodyStream; contentType := js "image/svg+xml";
       cleanup := destroy_both |}
  else
    {| stream := Transformed (transformer_for format keepMetadata);
       contentType := contentTypeForFormat format;
       cleanup := destroy_both |}.
Proof.
  rewrite createConvertedStream_unfold.
  destruct (readHead fuel 4100 (peek_start w)) as [[head|e| |] w1]; try done.
  simpl. destruct (valid (detectMagic head)); simpl; [|done].
  destruct (JS.eqs format (js "svg") && _); [done|].
  by destruct (JS.eqs format (js "svg")); intros [= <- <-].
Qed.

(** The reply of a request that was answered with a stream. *)
Lemma convert_reply (fuel : nat) (request : Request) (w : World)
    (reply : Reply) (w' : World) :
  Server.convert fuel request w = (Return reply, w')
  ∨ Part000.convert fuel request w = (Return reply, w') →
  code reply = 200%N →
  let format := parse_format request in
  ∃ converted,
    converted =
      (if JS.eqs format (js "svg") then
         {| stream := BodyStream; contentType := js "image/svg+xml";
            cleanup := destroy_both |}
       else
         {| stream := Transformed
                        (transformer_for format (parse_keepMetadata request));
            contentType := contentTypeForFormat format;
            cleanup := destroy_both |})
    ∧ replyType reply = Some (contentType converted)
    ∧ payload reply = StreamPayload (stream converted).
Proof.
  intros Hreply Hcode. simpl.
  rewrite Server_convert_unfold, Part000_convert_unfold in Hreply.
  simpl in Hreply.
  destruct (isAllowedFormat _); simpl in Hreply;
    [|destruct Hreply as [[= <- <-]|[= <- <-]]; done].
  destruct (filePresent w); simpl in Hreply;
    [|destruct Hreply as [[= <- <-]|[= <- <-]]; done].
  destruct (Server.createConvertedStream _ _ _ _) as [[cr|e| |] w2] eqn:Hc;
    try (destruct Hreply as [?|?]; done).
  - apply createConvertedStream_result in Hc. exists cr.
    split; [done|]. by destruct Hreply as [[= <- <-]|[= <- <-]].
  - apply createConvertedStream_throws in Hc.
    destruct Hreply as [[= <- <-]|[= <- <-]]; by destruct Hc as [->| ->].
Qed.

(** C7. For every accepted format token, the content type of the reply
    and the options given to the transformer are those of the policy
    table: AVIF with quality 50 and effort 4, WEBP with quality 80 and
    effort 4, PNG with compression level 9 and adaptive filtering, JPEG
    with quality 82 and mozjpeg; SVG has no options and is passed through
    as image/svg+xml. *)
Theorem policy_table_resolved (format : jsstring) :
  isAllowedFormat format = true →
  ∃ ctype options,
    (format, (ctype, options)) ∈ policy_table
    ∧ (∀ op, options = Some op →
         contentTypeForFormat format = ctype
         ∧ ∀ t, applyOutputFormat t format = sharp_call op t)
    ∧ (∀ fuel keepMetadata w converted w',
         Server.createConvertedStream fuel format keepMetadata w
         = (Return converted, w') →
         contentType converted = ctype
         ∧ stream converted = policy_stream options keepMetadata)
    ∧ (∀ fuel request w reply w',
         parse_format request = format →
         Server.convert fuel request w = (Return reply, w')
         ∨ Part000.convert fuel request w = (Return reply, w') →
         code reply = 200%N →
         replyType reply = Some ctype
         ∧ payload reply
           = StreamPayload
               (policy_stream options (parse_keepMetadata request))).
Proof.
  intros Ha. apply isAllowedFormat_spec in Ha. unfold allowed_tokens in Ha.
  repeat (apply elem_of_cons in Ha as [->|Ha]); [..|by apply elem_of_nil in Ha].
  all: eexists _, _; split;
    [unfold policy_table;
     first [ apply list_elem_of_here
           | do 1 apply list_elem_of_further; apply list_elem_of_here
           | do 2 apply list_elem_of_further; apply list_elem_of_here
           | do 3 apply list_elem_of_further; apply list_elem_of_here
           | do 4 apply list_elem_of_further; apply list_elem_of_here
           | do 5 apply list_elem_of_further; apply list_elem_of_here ]|].
  all: split; [by intros op [= <-]|].
  all: split;
    [ intros fuel km w converted w' Hc;
      apply createConvertedStream_result in Hc as ->;
      by destruct km
    | intros fuel request w reply w' Hf Hreply Hcode;
      destruct (convert_reply _ _ _ _ _ Hreply Hcode) as (cr & -> & -> & ->);
      rewrite Hf; by destruct (parse_keepMetadata request) ].
Qed.

Lemma policy_table_resolved_witness :
  ∃ ctype options, (js "webp", (ctype, options)) ∈ policy_table.
Proof.
  destruct (policy_table_resolved (js "webp") eq_refl)
    as (ctype & options & H & _).
  by exists ctype, options.
Defined.

(* ===================================================================== *)
(** * Query parameters *)
(* ===================================================================== *)

(** One comparison of the goal decided, with the impossible case closed. *)
Ltac N_case :=
  match goal with
  | |- context [(?a <=? ?b)%N] => destruct (N.leb_spec a b)
  | |- context [(?a =? ?b)%N] => destruct (N.eqb_spec a b)
  end;
  simpl; try lia.

Lemma toLowerCase_unit_upper (a : N) :
  (0x41 ≤ a ≤ 0x5A)%N → JS.toLowerCase_unit a = [(a + 32)%N].
Proof. intros ?. unfold JS.toLowerCase_unit. by repeat N_case. Qed.

Lemma toLowerCase_unit_lower (a : N) :
  (0x61 ≤ a ≤ 0x7A)%N → JS.toLowerCase_unit a = [a].
Proof. intros ?. unfold JS.toLowerCase_unit. by repeat N_case. Qed.

Lemma toLowerCase_unit_same_letter (a b : N) :
  same_letter a b → JS.toLowerCase_unit a = JS.toLowerCase_unit b.
Proof.
  intros [->|[[Ha ->]|[Hb ->]]]; [done|..].
  - rewrite toLowerCase_unit_upper by done.
    by rewrite toLowerCase_unit_lower by lia.
  - rewrite (toLowerCase_unit_upper b) by done.
    by rewrite toLowerCase_unit_lower by lia.
Qed.

Lemma toLowerCase_same_letters (s t : jsstring) :
  Forall2 same_letter s t → JS.toLowerCase s = JS.toLowerCase t.
Proof.
  unfold JS.toLowerCase. induction 1 as [|a b s t Hab _ IH]; [done|].
  by rewrite !bind_cons, IH, (toLowerCase_unit_same_letter a b).
Qed.

Lemma toLowerCase_unit_length (c : N) : 1 ≤ length (JS.toLowerCase_unit c).
Proof. unfold JS.toLowerCase_unit. repeat case_match; simpl; lia. Qed.

(** No other character has the digit 1 as its lower case. *)
Lemma toLowerCase_unit_one (c : N) :
  JS.toLowerCase_unit c = js "1" → c = 0x31%N.
Proof.
  unfold JS.toLowerCase_unit, js. simpl.
  repeat (N_case; try (intros [= ?]; lia)).
Qed.

Lemma toLowerCase_one (s : jsstring) :
  JS.toLowerCase s = js "1" ↔ s = js "1".
Proof.
  split; [|by intros ->].
  unfold JS.toLowerCase. destruct s as [|c s]; [done|].
  rewrite bind_cons. intros H.
  assert (JS.toLowerCase_unit c = js "1" ∧ s ≫= JS.toLowerCase_unit = [])
    as [Hc Hs].
  { pose proof (toLowerCase_unit_length c) as Hl.
    destruct (JS.toLowerCase_unit c) as [|x [|y l]]; simpl in Hl; [lia| |done].
    simpl in H. by injection H as -> ->. }
  apply toLowerCase_unit_one in Hc as ->.
  destruct s as [|d s]; [done|]. rewrite bind_cons in Hs.
  pose proof (toLowerCase_unit_length d) as Hl.
  destruct (JS.toLowerCase_unit d); simpl in Hl; [lia|done].
Qed.

(** A key given more than once reads as its values joined with commas,
    which is not "1". *)
Lemma toLowerCase_array_not_one (a b : jsstring) (rest : list jsstring) :
  JS.toLowerCase (QVal.toString (QArr a b rest)) ≠ js "1".
Proof.
  intros H. apply (proj1 (toLowerCase_one _)) in H.
  change (QVal.toString (QArr a b rest))
    with (a ++ [44%N] ++ JS.join (b :: rest)) in H.
  change (js "1") with [49%N] in H.
  destruct a as [|x a]; [done|].
  rewrite <-app_comm_cons in H.
  injection H as _ H. by apply app_nil in H as [_ ?].
Qed.

(** C8. The format selector is read without regard to case: an absent
    (or empty) selector is the default token "avif", any other selector
    is its lower-case form, so two selectors that differ only in the case
    of their letters select the same format.  [keepMetadata] is true
    exactly when the parameter is the string "1". *)
Theorem query_parameters (request : Request) :
  (query_get request "format" = None → parse_format request = js "avif")
  ∧ (∀ s, query_get request "format" = Some (QStr s) →
          parse_format request
          = if bool_decide (s = []) then js "avif" else JS.toLowerCase s)
  ∧ (∀ request' s t,
       query_get request "format" = Some (QStr s) →
       query_get request' "format" = Some (QStr t) →
       Forall2 same_letter s t →
       parse_format request = parse_format request')
  ∧ (parse_keepMetadata request = true
     ↔ query_get request "keepMetadata" = Some (QStr (js "1"))).
Proof.
  assert (∀ r s, query_get r "format" = Some (QStr s) →
                 parse_format r
                 = if bool_decide (s = []) then js "avif" else JS.toLowerCase s)
    as Hformat.
  { intros r s H. unfold parse_format. rewrite H. by destruct s. }
  split; [|split; [|split]].
  - intros H. unfold parse_format. by rewrite H.
  - apply Hformat.
  - intros request' s t Hs Ht Hst.
    rewrite (Hformat _ _ Hs), (Hformat _ _ Ht).
    rewrite (toLowerCase_same_letters s t Hst).
    by destruct Hst.
  - unfold parse_keepMetadata.
    destruct (query_get request "keepMetadata") as [[s|a b rest]|]; [| |done].
    + rewrite eqs_true, toLowerCase_one. simpl. split; [by intros ->|by intros [= ->]].
    + rewrite eqs_true. split; [|done].
      intros H. by apply toLowerCase_array_not_one in H.
Qed.

Lemma query_parameters_witness :
  parse_format (request_with (js "WebP")) = parse_format (request_with (js "webp")).
Proof.
  apply (proj1 (proj2 (proj2 (query_parameters (request_with (js "WebP")))))
           (request_with (js "webp")) (js "WebP") (js "webp")).
  - vm_compute. reflexivity.
  - vm_compute. reflexivity.
  - change (js "WebP") with [87; 101; 98; 80]%N.
    change (js "webp") with [119; 101; 98; 112]%N.
    do 4 (constructor; [unfold same_letter; lia|]).
    constructor.
Defined.

(* ===================================================================== *)
(** * The token "jpg" *)
(* ===================================================================== *)

Lemma createConvertedStream_jpg (fuel : nat) (keepMetadata : bool) (w : World) :
  Server.createConvertedStream fuel (js "jpg") keepMetadata w
  = Server.createConvertedStream fuel (js "jpeg") keepMetadata w.
Proof.
  rewrite !createConvertedStream_unfold.
  destruct (readHead fuel 4100 (peek_start w)) as [[head|e| |] w1]; try done.
Qed.

(** C10. The token "jpg" is accepted, and a request for "jpg" is handled
    as a request for "jpeg": the same transformer options (quality 82,
    mozjpeg), the same content type image/jpeg, the same outcome and the
    same world in both servers.  Only the file name of the
    [Content-Disposition] header differs: "converted.jpg". *)
Theorem jpg_is_jpeg (fuel : nat) (request request' : Request) (w : World) :
  parse_format request = js "jpg" →
  parse_format request' = js "jpeg" →
  parse_keepMetadata request = parse_keepMetadata request' →
  isAllowedFormat (js "jpg") = true
  ∧ contentTypeForFormat (js "jpg") = js "image/jpeg"
  ∧ contentTypeForFormat (js "jpeg") = js "image/jpeg"
  ∧ (∀ t, applyOutputFormat t (js "jpg") = sharp_call (Jpeg 82 true) t
          ∧ applyOutputFormat t (js "jpeg") = sharp_call (Jpeg 82 true) t)
  ∧ content_disposition (js "jpg")
    = (js "Content-Disposition",
       js "inline; filename=" ++ [0x22%N] ++ js "converted.jpg" ++ [0x22%N])
  ∧ (Server.convert fuel request w).2 = (Server.convert fuel request' w).2
  ∧ same_but_filename (Server.convert fuel request w).1
                      (Server.convert fuel request' w).1
  ∧ (Part000.convert fuel request w).2 = (Part000.convert fuel request' w).2
  ∧ same_but_filename (Part000.convert fuel request w).1
                      (Part000.convert fuel request' w).1.
Proof.
  intros Hf Hf' Hk.
  do 5 (split; [done|]).
  rewrite !Server_convert_unfold, !Part000_convert_unfold. simpl.
  rewrite Hf, Hf', Hk, createConvertedStream_jpg.
  change (isAllowedFormat (js "jpg")) with true.
  change (isAllowedFormat (js "jpeg")) with true.
  change (JS.eqs (js "jpg") (js "svg")) with false.
  change (JS.eqs (js "jpeg") (js "svg")) with false.
  simpl. destruct (filePresent w); simpl; [|done].
  destruct (Server.createConvertedStream _ _ _ _) as [[cr|e| |] w2] eqn:Hc;
    try done.
  simpl. apply createConvertedStream_throws in Hc as [->| ->]; done.
Qed.

Lemma jpg_is_jpeg_witness :
  same_but_filename
    (Server.convert 5 (request_with (js "JPG")) png_upload).1
    (Server.convert 5 (request_with (js "jpeg")) png_upload).1.
Proof.
  assert (parse_format (request_with (js "JPG")) = js "jpg") as H1
    by (vm_compute; reflexivity).
  assert (parse_format (request_with (js "jpeg")) = js "jpeg") as H2
    by (vm_compute; reflexivity).
  assert (parse_keepMetadata (request_with (js "JPG"))
          = parse_keepMetadata (request_with (js "jpeg"))) as H3
    by (vm_compute; reflexivity).
  destruct (jpg_is_jpeg 5 _ _ png_upload H1 H2 H3)
    as (_ & _ & _ & _ & _ & _ & H & _).
  exact H.
Defined.

(* ===================================================================== *)
(** * The classifier *)
(* ===================================================================== *)

(** What [detectMagic] computes.  It tries six rules in order: PNG (the
    first 8 bytes are 89 50 4E 47 0D 0A 1A 0A), JPEG (the first 3 bytes are
    FF D8 FF), WEBP, AVIF, GIF, SVG (the UTF-8 decoding of the whole
    buffer, in lower case, contains "<svg").  The WEBP, AVIF and GIF
    signatures are compared on the ASCII decoding of the first 12 bytes, in
    which the highest bit of every byte is cleared.  The first rule that
    matches gives the kind; when none matches the result is "unknown".  On
    a buffer whose first 12 bytes are below 0x80 the signatures are
    compared byte for byte. *)
Lemma detectMagic_rules (buffer : Buffer) :
  detectMagic buffer = classify rules_on_ascii buffer
  ∧ (Forall (λ x, (Byte.to_N x < 128)%N) (take 12 buffer) →
     detectMagic buffer = classify rules_on_bytes buffer).
Proof.
  assert (detectMagic buffer = classify rules_on_ascii buffer) as Hrules.
  { rewrite detectMagic_unfold. unfold classify, rules_on_ascii. simpl.
    by repeat case_match. }
  split; [done|]. intros H7.
  assert (∀ a k s, a + k ≤ 12 →
            JS.toString_ascii (bytes s) = js s →
            bool_decide (JS.toString_ascii (take k (drop a buffer)) = js s)
            = bool_decide (take k (drop a buffer) = bytes s)) as Hsame.
  { intros a k s Hle Hs. apply bool_decide_ext. split; [|by intros ->].
    apply ascii_7bit_eq. rewrite <-(header_window a k) by done.
    apply Forall_take, Forall_drop, H7. }
  pose proof (Hsame 8 4 "WEBP"%string ltac:(lia) eq_refl) as H0.
  pose proof (Hsame 0 4 "RIFF"%string ltac:(lia) eq_refl) as H1.
  pose proof (Hsame 0 6 "GIF87a"%string ltac:(lia) eq_refl) as H2.
  pose proof (Hsame 0 6 "GIF89a"%string ltac:(lia) eq_refl) as H3.
  rewrite drop_0 in H1, H2, H3.
  assert (Rule.webp_7bit buffer = Rule.webp_bytes buffer) as Hw.
  { unfold Rule.webp_7bit, Rule.webp_bytes. by rewrite H0, H1. }
  assert (Rule.gif_7bit buffer = Rule.gif_bytes buffer) as Hg.
  { unfold Rule.gif_7bit, Rule.gif_bytes. by rewrite H2, H3. }
  rewrite detectMagic_unfold, Hw, Hg.
  unfold classify, rules_on_bytes. simpl.
  by repeat case_match.
Qed.

(** C2, where the code breaks it.  The twelve bytes of [high_bit_riff]
    are no WEBP signature: bytes 0-3 are D2 49 46 46, not "RIFF", and none
    of the six rules matches them as the rules are worded, so the result
    is to be "unknown" and not valid.  [detectMagic] answers "webp": it
    compares the RIFF, WEBP and GIF signatures on
    [header.toString('ascii')], which clears the highest bit of every
    byte, and D2 becomes "R".  The PNG and JPEG rules next to them compare
    the bytes as they are: [flipped_png] has the ASCII decoding of the PNG
    signature and is not accepted.  An upload that starts with the twelve
    bytes passes the check in both servers and is handed to the
    transformer with status 200, where it is to be turned down with
    415. *)
Theorem detectMagic_high_bit_riff :
  length high_bit_riff = 12
  ∧ detectMagic high_bit_riff = {| valid := true; kind := js "webp" |}
  ∧ classify rules_on_bytes high_bit_riff
    = {| valid := false; kind := js "unknown" |}
  ∧ JS.toString_ascii flipped_png = JS.toString_ascii PNG_SIGNATURE
  ∧ detectMagic flipped_png = {| valid := false; kind := js "unknown" |}
  ∧ (Server.convert 5 (request_with (js "png")) high_bit_riff_upload).1
    = Return {| code := 200;
                replyType := Some (js "image/png");
                replyHeaders := [content_disposition (js "png")];
                payload :=
                  StreamPayload
                    (Transformed {| failOnError := false;
                                    sequentialRead := true;
                                    ops := [Rotate; Png 9 true] |}) |}
  ∧ (Part000.convert 5 (request_with (js "png")) high_bit_riff_upload).1
    = (Server.convert 5 (request_with (js "png")) high_bit_riff_upload).1.
Proof. vm_compute. by repeat split. Qed.

(** C9. On every buffer, the empty one and the ones shorter than a
    signature included, [detectMagic] gives a result (an index or a slice
    past the end of the buffer reads nothing, it does not fail), the result
    is valid exactly when its kind is not "unknown", and its kind is one of
    png, jpeg, webp, avif, gif, svg, unknown.  Each of the seven kinds is
    the kind of some buffer. *)
Theorem detectMagic_invariant (buffer : Buffer) :
  (valid (detectMagic buffer) = true
   ↔ kind (detectMagic buffer) ≠ js "unknown")
  ∧ kind (detectMagic buffer) ∈ KINDS
  ∧ (λ b, kind (detectMagic b)) <$> SAMPLES = KINDS.
Proof.
  split; [|split; [|by vm_compute]].
  all: pose proof (detectMagic_cases buffer) as H.
  all: repeat (apply elem_of_cons in H as [->|H]);
    [..|by apply elem_of_nil in H].
  all: try by split.
  all: unfold KINDS; simpl;
    first [ apply list_elem_of_here
          | do 1 apply list_elem_of_further; apply list_elem_of_here
          | do 2 apply list_elem_of_further; apply list_elem_of_here
          | do 3 apply list_elem_of_further; apply list_elem_of_here
          | do 4 apply list_elem_of_further; apply list_elem_of_here
          | do 5 apply list_elem_of_further; apply list_elem_of_here
          | do 6 apply list_elem_of_further; apply list_elem_of_here ].
Qed.

(* ===================================================================== *)
(** * The configured origin *)
(* ===================================================================== *)

Lemma strip_trailing_slash_app (v : jsstring) :
  Regex.strip_trailing_slash (v ++ [Regex.SLASH]) = v.
Proof.
  induction v as [|c v IH]; [done|].
  simpl. rewrite IH. by destruct (v ++ [Regex.SLASH]) eqn:E; [destruct v|].
Qed.

Lemma strip_trailing_slash_last (v : jsstring) :
  Regex.strip_trailing_slash v
  = if bool_decide (last v = Some Regex.SLASH) then take (length v - 1) v else v.
Proof.
  induction v as [|c v IH]; [done|].
  destruct v as [|d v].
  - simpl. destruct (N.eqb_spec c Regex.SLASH) as [->|Hc].
    + by rewrite bool_decide_eq_true_2.
    + rewrite bool_decide_eq_false_2; [done|]. by intros [= ?].
  - change (Regex.strip_trailing_slash (c :: d :: v))
      with (c :: Regex.strip_trailing_slash (d :: v)).
    rewrite IH. change (last (c :: d :: v)) with (last (d :: v)).
    case_bool_decide; [|done]. simpl. by rewrite Nat.sub_0_r.
Qed.

Lemma normalizeOrigin_app (v : jsstring) :
  normalizeOrigin (v ++ [Regex.SLASH]) = v.
Proof.
  unfold normalizeOrigin.
  rewrite bool_decide_eq_false_2 by (by destruct v).
  assert (JS.eqs (v ++ [Regex.SLASH]) (js "*") = false) as ->.
  { apply eqs_false. by destruct v as [|? [|]]. }
  apply strip_trailing_slash_app.
Qed.

(** An origin that is not empty either ends with a slash, which is
    removed, or is returned as it is. *)
Lemma normalizeOrigin_spec (v : jsstring) :
  v ≠ [] →
  (last v ≠ Some Regex.SLASH ∧ normalizeOrigin v = v)
  ∨ (∃ v', v = v' ++ [Regex.SLASH] ∧ normalizeOrigin v = v').
Proof.
  intros Hv. destruct (decide (last v = Some Regex.SLASH)) as [Hl|Hl].
  - right. apply last_Some in Hl as (v' & ->). exists v'.
    split; [done|]. apply normalizeOrigin_app.
  - left. split; [done|]. unfold normalizeOrigin.
    rewrite bool_decide_eq_false_2 by done. simpl.
    destruct (JS.eqs v (js "*")) eqn:E; [done|].
    rewrite strip_trailing_slash_last. by rewrite bool_decide_eq_false_2.
Qed.

(** X1. [normalizeOrigin] removes one slash from the end of an origin, and
    only one: an origin that ends with two slashes keeps one.  The empty
    origin becomes "*"; any other origin that does not end with a slash is
    returned as it is. *)
Theorem normalizeOrigin_one_slash (v : jsstring) :
  normalizeOrigin (v ++ js "/") = v
  ∧ normalizeOrigin v
    = (if bool_decide (v = []) then js "*"
       else if bool_decide (last v = Some Regex.SLASH)
            then take (length v - 1) v
            else v).
Proof.
  split.
  - apply normalizeOrigin_app.
  - unfold normalizeOrigin. case_bool_decide as Hv; [done|]. simpl.
    destruct (JS.eqs v (js "*")) eqn:E.
    + apply eqs_true in E as ->. done.
    + apply strip_trailing_slash_last.
Qed.

Lemma strip_trailing_slash_nil (v : jsstring) :
  Regex.strip_trailing_slash v = [] → v = [] ∨ v = [Regex.SLASH].
Proof.
  destruct v as [|c [|d v]]; [by left| |done].
  simpl. destruct (N.eqb_spec c Regex.SLASH) as [->|]; [by right|done].
Qed.

(** X2. [CORS_ORIGIN] is the wildcard exactly when the environment
    variable is unset, empty, "*" or "*/"; this is when the CORS plugin is
    registered with [origin: true]. *)
Theorem CORS_ORIGIN_wildcard (env : option jsstring) :
  CORS_ORIGIN env = js "*"
  ↔ env = None ∨ env = Some [] ∨ env = Some (js "*") ∨ env = Some (js "*/").
Proof.
  split.
  - unfold CORS_ORIGIN. destruct env as [v|]; [|by left].
    case_bool_decide as Hv; [subst; by right; left|].
    unfold normalizeOrigin. rewrite bool_decide_eq_false_2 by done. simpl.
    destruct (JS.eqs v (js "*")) eqn:E.
    { apply eqs_true in E as ->. intros _. by right; right; left. }
    intros H. right; right; right. f_equal.
    destruct v as [|c [|d v]]; [done| |].
    + simpl in H. by destruct (c =? Regex.SLASH)%N; simplify_eq; apply eqs_false in E.
    + change (Regex.strip_trailing_slash (c :: d :: v))
        with (c :: Regex.strip_trailing_slash (d :: v)) in H.
      injection H as -> H.
      change (Regex.strip_trailing_slash (d :: v) = []) in H.
      by apply strip_trailing_slash_nil in H as [?| ->].
  - by intros [->|[->|[->| ->]]].
Qed.

Lemma CORS_ORIGIN_wildcard_witness : CORS_ORIGIN (Some (js "*/")) = js "*".
Proof.
  apply (proj2 (CORS_ORIGIN_wildcard (Some (js "*/")))).
  by right; right; right.
Defined.

(** X18. The two servers send the same [Access-Control-Allow-Origin]
    header, except for a configured origin that ends with a slash:
    [server.js] sends it without that slash and the single-route server
    sends it as it is configured. *)
Theorem allow_origin_of_the_two_servers (env : option jsstring) :
  (CORS_ORIGIN env = CORS_ORIGIN_part_000 env
   ↔ last (CORS_ORIGIN_part_000 env) ≠ Some Regex.SLASH)
  ∧ (last (CORS_ORIGIN_part_000 env) = Some Regex.SLASH
     ↔ CORS_ORIGIN env ++ js "/" = CORS_ORIGIN_part_000 env).
Proof.
  unfold CORS_ORIGIN. fold (CORS_ORIGIN_part_000 env).
  assert (CORS_ORIGIN_part_000 env ≠ []) as Hne.
  { unfold CORS_ORIGIN_part_000. destruct env as [v|]; [|done].
    by case_bool_decide. }
  assert (∀ v : jsstring, v ≠ v ++ js "/") as Hlen.
  { intros v H. apply (f_equal length) in H.
    rewrite length_app in H. simpl in H. lia. }
  destruct (normalizeOrigin_spec (CORS_ORIGIN_part_000 env) Hne)
    as [(Hl & Hn)|(v & Hv & Hn)]; rewrite Hn.
  - split; [done|]. split; [done|]. intros H. symmetry in H.
    by apply Hlen in H.
  - rewrite Hv, last_snoc. split; [|done].
    split; [|done]. intros H. by apply Hlen in H.
Qed.

Lemma allow_origin_of_the_two_servers_witness :
  CORS_ORIGIN (Some (js "https://avify.app/")) ++ js "/"
  = CORS_ORIGIN_part_000 (Some (js "https://avify.app/")).
Proof.
  by apply (proj2 (allow_origin_of_the_two_servers
                     (Some (js "https://avify.app/")))).
Defined.

(* ===================================================================== *)
(** * Public ids and transformed URLs *)
(* ===================================================================== *)

Lemma squeeze_Forall (P : N → Prop) (C : N → bool) (s : jsstring) :
  P Regex.DASH →
  (∀ c, c ∈ s → C c = false → P c) →
  ∀ in_run, Forall P (Regex.squeeze C in_run s).
Proof.
  intros Hd. induction s as [|c s IH]; intros Hs in_run; [constructor|].
  simpl.
  assert (∀ r, Forall P (Regex.squeeze C r s)) as IH'.
  { apply IH. intros c' ?. apply Hs. by right. }
  destruct (C c) eqn:Hc.
  - destruct in_run; [apply IH'|]. constructor; [done|apply IH'].
  - constructor; [|apply IH']. apply Hs; [by left|done].
Qed.

Lemma collapse_no_double_dash (s : jsstring) (in_run : bool) :
  no_double_dash (Regex.squeeze (λ c, (c =? Regex.DASH)%N) in_run s) = true
  ∧ (in_run = true →
     head (Regex.squeeze (λ c, (c =? Regex.DASH)%N) in_run s)
     ≠ Some Regex.DASH).
Proof.
  revert in_run. induction s as [|c s IH]; intros in_run; [done|].
  simpl. destruct (N.eqb_spec c Regex.DASH) as [->|Hc].
  - destruct (IH true) as [Hn Hh]. destruct in_run; [done|].
    split; [|done].
    destruct (Regex.squeeze _ true s) as [|d t] eqn:E; [done|].
    change (negb ((Regex.DASH =? Regex.DASH)%N && (d =? Regex.DASH)%N)
            && no_double_dash (d :: t) = true).
    rewrite Hn, andb_true_r.
    destruct (N.eqb_spec d Regex.DASH) as [->|]; [|done].
    by destruct (Hh eq_refl).
  - destruct (IH false) as [Hn _]. split; [|by intros _ [= ?]].
    destruct (Regex.squeeze _ false s) as [|d t] eqn:E; [done|].
    change (negb ((c =? Regex.DASH)%N && (d =? Regex.DASH)%N)
            && no_double_dash (d :: t) = true).
    rewrite Hn, andb_true_r.
    by destruct (N.eqb_spec c Regex.DASH).
Qed.

Lemma no_double_dash_two (s : jsstring) :
  no_double_dash (Regex.DASH :: Regex.DASH :: s) ≠ true.
Proof. done. Qed.

Lemma no_double_dash_tail (c : N) (s : jsstring) :
  no_double_dash (c :: s) = true → no_double_dash s = true.
Proof. destruct s as [|d s]; [done|]. simpl. by intros [_ ?]%andb_true_iff. Qed.

Lemma strip_trailing_dash_spec (s : jsstring) :
  no_double_dash s = true →
  no_double_dash (Regex.strip_trailing_dash s) = true
  ∧ last (Regex.strip_trailing_dash s) ≠ Some Regex.DASH
  ∧ (head s ≠ Some Regex.DASH →
     head (Regex.strip_trailing_dash s) ≠ Some Regex.DASH)
  ∧ ∀ c, c ∈ Regex.strip_trailing_dash s → c ∈ s.
Proof.
  induction s as [|c s IH]; [by intros _; repeat split|].
  intros Hn. destruct s as [|d s].
  - simpl. destruct (N.eqb_spec c Regex.DASH) as [->|Hc].
    + repeat split; try done. intros c Hc. by apply elem_of_nil in Hc.
    + repeat split; try done. by intros [= ?].
  - destruct (IH (no_double_dash_tail _ _ Hn)) as (IH1 & IH2 & IH3 & IH4).
    change (Regex.strip_trailing_dash (c :: d :: s))
      with (c :: Regex.strip_trailing_dash (d :: s)).
    assert (no_double_dash (c :: Regex.strip_trailing_dash (d :: s)) = true
            ∧ last (c :: Regex.strip_trailing_dash (d :: s)) ≠ Some Regex.DASH)
      as [H1 H2].
    { destruct (Regex.strip_trailing_dash (d :: s)) as [|e t] eqn:E.
      - split; [done|]. simpl. intros [= ->].
        (* the rest was one dash, so [c] is not a dash *)
        destruct s as [|? ?]; simpl in E.
        + destruct (d =? Regex.DASH)%N eqn:Ed; [|done].
          apply N.eqb_eq in Ed as ->. by apply no_double_dash_two in Hn.
        + done.
      - split; [|done].
        change (negb ((c =? Regex.DASH)%N && (e =? Regex.DASH)%N)
                && no_double_dash (e :: t) = true).
        rewrite IH1, andb_true_r.
        destruct (N.eqb_spec c Regex.DASH) as [->|]; [|done].
        destruct (N.eqb_spec e Regex.DASH) as [->|]; [|done].
        exfalso. apply IH3; [|done]. simpl.
        intros [= ->]. by apply no_double_dash_two in Hn. }
    repeat split; try done.
    intros x [->|Hx]%elem_of_cons; [by left|]. right. by apply IH4.
Qed.

(** What the three replacements make of a name. *)
Lemma normalized_name (base : jsstring) :
  let normalized :=
    Regex.trim_dashes
      (Regex.collapse_dashes (Regex.replace_unsafe (JS.toLowerCase base))) in
  Forall (λ c, Regex.safe c = true) normalized
  ∧ no_double_dash normalized = true
  ∧ head normalized ≠ Some Regex.DASH
  ∧ last normalized ≠ Some Regex.DASH.
Proof.
  set (l := JS.toLowerCase base).
  assert (Forall (λ c, Regex.safe c = true) (Regex.replace_unsafe l)) as Hsafe.
  { apply squeeze_Forall; [done|]. intros c _ Hc. by apply negb_false_iff. }
  set (u := Regex.replace_unsafe l) in *.
  assert (Forall (λ c, Regex.safe c = true) (Regex.collapse_dashes u)) as Hsafe'.
  { apply squeeze_Forall; [done|]. intros c Hc _.
    by apply (proj1 (Forall_forall _ _) Hsafe). }
  destruct (collapse_no_double_dash u false) as [Hn _].
  change (Regex.squeeze _ false u) with (Regex.collapse_dashes u) in Hn.
  set (k := Regex.collapse_dashes u) in *.
  assert (no_double_dash (Regex.strip_leading_dash k) = true
          ∧ head (Regex.strip_leading_dash k) ≠ Some Regex.DASH
          ∧ ∀ c, c ∈ Regex.strip_leading_dash k → c ∈ k) as (Hn' & Hh & Hin).
  { destruct k as [|c k']; [done|]. simpl.
    destruct (N.eqb_spec c Regex.DASH) as [->|Hc].
    - split; [by eapply no_double_dash_tail|]. split; [|by right].
      destruct k' as [|d k'']; [done|]. simpl.
      intros [= ->]. by apply no_double_dash_two in Hn.
    - split; [done|]. split; [by intros [= ?]|done]. }
  destruct (strip_trailing_dash_spec _ Hn') as (H1 & H2 & H3 & H4).
  simpl. unfold Regex.trim_dashes. repeat split; try done; [|by apply H3].
  apply Forall_forall. intros c Hc.
  apply (proj1 (Forall_forall _ _) Hsafe'). by apply Hin, H4.
Qed.

(** X3. A public id is a stem, a dash, the time, a dash and up to six
    characters of the random string.  The stem is never empty, is made of
    lower-case letters, digits, dashes and underscores only, has no two
    dashes in a row and neither starts nor ends with a dash, whatever the
    file name was; without a file name it is "image". *)
Theorem buildPublicId_stem (filename : option jsstring) (now : N)
    (random36 : jsstring) :
  ∃ stem,
    buildPublicId filename now random36
    = stem ++ js "-" ++ decimal now ++ js "-" ++ JS.slice 2 8 random36
    ∧ stem ≠ []
    ∧ Forall (λ c, Regex.safe c = true) stem
    ∧ no_double_dash stem = true
    ∧ head stem ≠ Some Regex.DASH
    ∧ last stem ≠ Some Regex.DASH
    ∧ length (JS.slice 2 8 random36) ≤ 6
    ∧ (filename = None ∨ filename = Some [] → stem = js "image").
Proof.
  unfold buildPublicId.
  set (base := Regex.strip_extension _).
  destruct (normalized_name base) as (H1 & H2 & H3 & H4).
  set (normalized := Regex.trim_dashes _) in *.
  exists (if bool_decide (normalized = []) then js "image" else normalized).
  split; [done|].
  assert (length (JS.slice 2 8 random36) ≤ 6) as Hlen.
  { unfold JS.slice. rewrite length_take. lia. }
  assert (filename = None ∨ filename = Some [] →
          (if bool_decide (normalized = []) then js "image" else normalized)
          = js "image") as Himg.
  { intros Hf.
    assert (normalized = js "image") as ->; [|by case_bool_decide].
    unfold normalized, base. by destruct Hf as [-> | ->]. }
  case_bool_decide as Hn; [|done].
  repeat split; try done. by repeat constructor.
Qed.

Lemma buildPublicId_stem_witness :
  ∃ stem,
    buildPublicId (Some []) 1700000000000 (js "0.4fzyo82mvyr")
    = stem ++ js "-" ++ decimal 1700000000000 ++ js "-"
      ++ JS.slice 2 8 (js "0.4fzyo82mvyr")
    ∧ stem = js "image".
Proof.
  destruct (buildPublicId_stem (Some []) 1700000000000 (js "0.4fzyo82mvyr"))
    as (stem & H & _ & _ & _ & _ & _ & _ & Himg).
  exists stem. split; [exact H|]. apply Himg. by right.
Defined.

Lemma strip_extension_app (name ext : jsstring) :
  ext ≠ [] → Regex.DOT ∉ ext →
  Regex.strip_extension (name ++ [Regex.DOT] ++ ext) = name.
Proof.
  intros Hne Hdot.
  assert (forallb (λ d, negb (d =? Regex.DOT)%N) ext = true) as Hall.
  { apply forallb_forall. intros d Hd%list_elem_of_In.
    destruct (N.eqb_spec d Regex.DOT) as [->|]; done. }
  induction name as [|c name IH].
  - simpl. rewrite ?N.eqb_refl, Hall. by rewrite bool_decide_eq_false_2.
  - change (Regex.strip_extension ((c :: name) ++ [Regex.DOT] ++ ext))
      with (if (c =? Regex.DOT)%N
               && negb (bool_decide (name ++ [Regex.DOT] ++ ext = []))
               && forallb (λ d, negb (d =? Regex.DOT)%N)
                          (name ++ [Regex.DOT] ++ ext)
            then []
            else c :: Regex.strip_extension (name ++ [Regex.DOT] ++ ext)).
    rewrite IH.
    assert (forallb (λ d, negb (d =? Regex.DOT)%N) (name ++ [Regex.DOT] ++ ext)
            = false) as ->; [|by rewrite andb_false_r].
    rewrite forallb_app. simpl. rewrite ?N.eqb_refl. by rewrite andb_false_r.
Qed.

Lemma strip_extension_none (s : jsstring) :
  Regex.DOT ∉ s → Regex.strip_extension s = s.
Proof.
  induction s as [|c s IH]; [done|]. intros Hs. simpl.
  destruct (N.eqb_spec c Regex.DOT) as [->|]; [by destruct Hs; left|].
  simpl. rewrite IH; [done|]. intros ?. apply Hs. by right.
Qed.

(** X4. The last extension of the file name is dropped before the name is
    cleaned, so two uploads that differ only in their extension get the
    same public id at the same time with the same random string.  A name
    without a dot is kept whole. *)
Theorem buildPublicId_ignores_extension (name ext ext' : jsstring) (now : N)
    (random36 : jsstring) :
  ext ≠ [] → ext' ≠ [] → Regex.DOT ∉ ext → Regex.DOT ∉ ext' →
  buildPublicId (Some (name ++ [Regex.DOT] ++ ext)) now random36
  = buildPublicId (Some (name ++ [Regex.DOT] ++ ext')) now random36
  ∧ (name ≠ [] → Regex.DOT ∉ name →
     buildPublicId (Some (name ++ [Regex.DOT] ++ ext)) now random36
     = buildPublicId (Some name) now random36).
Proof.
  intros He He' Hd Hd'. unfold buildPublicId.
  assert (∀ e, bool_decide (name ++ [Regex.DOT] ++ e = []) = false) as Hne.
  { intros e. apply bool_decide_eq_false_2. by destruct name. }
  rewrite !Hne, !strip_extension_app by done. split; [done|].
  intros Hn Hdn. rewrite (bool_decide_eq_false_2 (name = [])) by done.
  by rewrite strip_extension_none.
Qed.

Lemma buildPublicId_ignores_extension_witness :
  buildPublicId (Some (js "My Photo.PNG")) 1700000000000 (js "0.4fzyo82mvyr")
  = buildPublicId (Some (js "My Photo.jpeg")) 1700000000000 (js "0.4fzyo82mvyr").
Proof.
  apply (buildPublicId_ignores_extension (js "My Photo") (js "PNG") (js "jpeg"));
    try done; apply (bool_decide_unpack _); vm_compute; exact I.
Defined.

Example buildPublicId_sample :
  buildPublicId (Some (js "My Photo (1).PNG")) 1700000000000 (js "0.4fzyo82mvyr")
  = js "my-photo-1-1700000000000-4fzyo8".
Proof. vm_compute. reflexivity. Qed.

Lemma replace_first_cons (pattern replacement : jsstring) (c : N) (t : jsstring) :
  Regex.replace_first pattern replacement (c :: t)
  = if JS.startsWith pattern (c :: t)
    then replacement ++ drop (length pattern) (c :: t)
    else c :: Regex.replace_first pattern replacement t.
Proof. done. Qed.

Lemma includes_cons (pattern : jsstring) (c : N) (t : jsstring) :
  JS.includes pattern (c :: t)
  = JS.startsWith pattern (c :: t) || JS.includes pattern t.
Proof. done. Qed.

(** A string the pattern does not occur in is left as it is. *)
Lemma replace_first_absent (pattern replacement s : jsstring) :
  JS.includes pattern s = false →
  Regex.replace_first pattern replacement s = s.
Proof.
  induction s as [|c s IH].
  - simpl. by intros ->%orb_false_iff%proj1.
  - rewrite includes_cons, replace_first_cons.
    intros [-> Hs]%orb_false_iff. by rewrite IH.
Qed.

(** The first occurrence is the one that is replaced. *)
Lemma replace_first_at (pattern replacement p q : jsstring) :
  pattern ≠ [] →
  JS.includes pattern (p ++ take (length pattern - 1) pattern) = false →
  Regex.replace_first pattern replacement (p ++ pattern ++ q)
  = p ++ replacement ++ q.
Proof.
  intros Hne. induction p as [|c p IH]; intros Hp.
  - assert (JS.startsWith pattern (pattern ++ q) = true) as Hs.
    { unfold JS.startsWith. apply bool_decide_eq_true_2, take_app_length. }
    simpl app.
    destruct (pattern ++ q) as [|d t] eqn:E; [by destruct pattern|].
    rewrite replace_first_cons, Hs, <-E. by rewrite drop_app_length.
  - change ((c :: p) ++ pattern ++ q) with (c :: (p ++ pattern ++ q)).
    change ((c :: p) ++ take (length pattern - 1) pattern)
      with (c :: (p ++ take (length pattern - 1) pattern)) in Hp.
    rewrite includes_cons in Hp. apply orb_false_iff in Hp as [Hs Hp].
    rewrite replace_first_cons.
    assert (JS.startsWith pattern (c :: p ++ pattern ++ q) = false) as ->.
    { unfold JS.startsWith in *. apply bool_decide_eq_false.
      apply bool_decide_eq_false in Hs. intros Heq. apply Hs.
      set (n := length pattern) in *.
      assert (c :: p ++ pattern ++ q
              = (c :: p ++ take (n - 1) pattern) ++ drop (n - 1) pattern ++ q)
        as E.
      { simpl. rewrite <-(assoc_L (++) p), (assoc_L (++) (take _ _)).
        by rewrite take_drop. }
      rewrite E, take_app_le in Heq; [done|].
      simpl. rewrite length_app, length_take. lia. }
    simpl. by rewrite IH.
Qed.

(** X5. The transformed URLs put the transformation after the first
    "/upload/" of the URL and leave the rest as it is.  A URL without
    "/upload/" comes back unchanged for every format.  The entries for
    "jpeg" and "jpg" are the same URL, with the format "jpg". *)
Theorem buildTransformedUrls_first_upload (secureUrl : jsstring) :
  let urls := buildTransformedUrls secureUrl in
  TransformedUrls.jpeg urls = TransformedUrls.jpg urls
  ∧ (JS.includes (js "/upload/") secureUrl = false →
     urls = {| TransformedUrls.avif := secureUrl;
               TransformedUrls.webp := secureUrl;
               TransformedUrls.jpeg := secureUrl;
               TransformedUrls.jpg := secureUrl;
               TransformedUrls.png := secureUrl |})
  ∧ (∀ p q,
       secureUrl = p ++ js "/upload/" ++ q →
       JS.includes (js "/upload/") (p ++ js "/upload") = false →
       urls = {| TransformedUrls.avif := p ++ js "/upload/f_avif,q_auto/" ++ q;
                 TransformedUrls.webp := p ++ js "/upload/f_webp,q_auto/" ++ q;
                 TransformedUrls.jpeg := p ++ js "/upload/f_jpg,q_auto/" ++ q;
                 TransformedUrls.jpg := p ++ js "/upload/f_jpg,q_auto/" ++ q;
                 TransformedUrls.png := p ++ js "/upload/f_png,q_auto/" ++ q |}).
Proof.
  split; [done|]. split.
  - intros H. unfold buildTransformedUrls.
    by rewrite !replace_first_absent.
  - intros p q -> H. unfold buildTransformedUrls.
    by rewrite !replace_first_at.
Qed.

Lemma buildTransformedUrls_first_upload_witness :
  TransformedUrls.webp
    (buildTransformedUrls
       (js "https://res.cloudinary.com/demo/image/upload/v1/converted/a.png"))
  = js "https://res.cloudinary.com/demo/image/upload/f_webp,q_auto/v1/converted/a.png".
Proof.
  pose proof (proj2 (proj2 (buildTransformedUrls_first_upload
    (js "https://res.cloudinary.com/demo/image/upload/v1/converted/a.png")))
    (js "https://res.cloudinary.com/demo/image") (js "v1/converted/a.png")
    eq_refl eq_refl) as H.
  simpl in H. by rewrite H.
Defined.

(* ===================================================================== *)
(** * The upload routes *)
(* ===================================================================== *)

Lemma or_default_nil (v : option jsstring) :
  or_default v [] = [] ↔ v = None ∨ v = Some [].
Proof.
  destruct v as [[|c s]|]; simpl.
  - split; [auto|done].
  - split; [done|by intros [|]].
  - split; [auto|done].
Qed.

(** Cloudinary is enabled when the three credentials are set and not
    empty. *)
Lemma CLOUDINARY_ENABLED_spec (env : ProcessEnv) :
  CLOUDINARY_ENABLED env = []
  ↔ CLOUDINARY_CLOUD_NAME env = [] ∨ CLOUDINARY_API_KEY env = []
    ∨ CLOUDINARY_API_SECRET env = [].
Proof.
  unfold CLOUDINARY_ENABLED, js_and.
  destruct (CLOUDINARY_CLOUD_NAME env), (CLOUDINARY_API_KEY env),
    (CLOUDINARY_API_SECRET env); simpl;
    (split; [auto|by intros [|[|]]]).
Qed.

(** [/convert/upload] is [/convert] followed, when [/convert] would
    stream, by one upload of the stream. *)
Lemma convert_upload_unfold (env : ProcessEnv) (service : UploadService)
    (now : N) (random36 : jsstring) (fuel : nat) (request : Request)
    (x : Exchange) :
  CLOUDINARY_ENABLED env ≠ [] →
  Routes.convert_upload env service now random36 fuel request x =
  match Server.convert fuel request (world x) with
  | (Return r, w') =>
    match payload r with
    | ErrorJson msg =>
      (Return (json_error (code r) msg),
       mkExchange w' (filename x) (uploads x))
    | StreamPayload s =>
      let call :=
        upload_call env (filename x) now random36 (ConvertedStream s)
          (Pipe.delivered (Pipe.run_to_end (streams w'))) in
      (Return (converted_reply (filename x) (service call)),
       mkExchange (Async.set_streams (Pipe.run_to_end (streams w')) w')
                  (filename x) (uploads x ++ [call]))
    end
  | (Throw e, w') => (Throw e, mkExchange w' (filename x) (uploads x))
  | (Hang, w') => (Hang, mkExchange w' (filename x) (uploads x))
  | (OutOfFuel, w') => (OutOfFuel, mkExchange w' (filename x) (uploads x))
  end.
Proof.
  intros He. rewrite Server_convert_unfold. unfold Routes.convert_upload.
  rewrite bool_decide_eq_false_2 by done. simpl.
  destruct (isAllowedFormat (parse_format request)); simpl; [|by destruct x].
  unfold Handler.bind at 1, Handler.lift at 1, Async.request_file.
  destruct (filePresent (world x)); simpl; [|done].
  unfold Handler.bind at 1, Handler.lift at 1, Async.try. simpl.
  destruct (Server.createConvertedStream _ _ _ _) as [[cr|e| |] w'];
    try done.
  unfold Handler.bind, Handler.lift, Handler.file_filename, Async.on_close,
    uploadToCloudinary, Handler.ret, upload_call, converted_reply.
  simpl. by destruct (service _).
Qed.

Lemma upload_unfold (env : ProcessEnv) (service : UploadService)
    (now : N) (random36 : jsstring) (x : Exchange) :
  CLOUDINARY_ENABLED env ≠ [] →
  Routes.upload env service now random36 x =
  let w := Async.add_stage FileRead (world x) in
  if negb (filePresent (world x)) then
    (Return (json_error 400 (js "No file uploaded")),
     mkExchange w (filename x) (uploads x))
  else
    let piped := pipeline FileStream (streams w) in
    let call := upload_call env (filename x) now random36 FileStream piped.1 in
    (Return (uploaded_reply (service call)),
     mkExchange (Async.set_streams piped.2 w) (filename x)
                (uploads x ++ [call])).
Proof.
  intros He. unfold Routes.upload.
  rewrite bool_decide_eq_false_2 by done.
  unfold Handler.bind at 1, Handler.lift at 1, Async.request_file.
  destruct (filePresent (world x)); simpl; [|done].
  unfold Handler.bind, Handler.file_filename, uploadToCloudinary,
    Handler.ret, upload_call, uploaded_reply.
  simpl. by destruct (service _).
Qed.

(** The uploaded file piped as it is delivers all it has to deliver. *)
Lemma pipeline_file (st : Streams) :
  destroyed (sourceStream st) = false →
  (ended (sourceStream st) = true → upcoming (sourceStream st) = []) →
  (pipeline FileStream st).1 = Stream.remaining (sourceStream st)
  ∧ bodyStream (pipeline FileStream st).2 = bodyStream st.
Proof.
  intros Hd Hwf.
  destruct (reassemble_delivers [] st Hd Hwf) as (s' & p' & Hr & Hw & _).
  unfold pipeline. split; [|done]. simpl.
  change (mkStreams (Stream.set_flowing true (sourceStream st))
                    (Some Stream.pt_new) true) with (reassemble [] st).
  by rewrite Hr.
Qed.

(** X6. Without the three Cloudinary credentials, each of them set and not
    empty, the two upload routes answer every request with status 500 and
    "Cloudinary is not configured on this server.", also a request with an
    unsupported format or without a file: the request is not looked at, the
    file is not read and nothing is uploaded. *)
Theorem upload_routes_not_configured (env : ProcessEnv)
    (service : UploadService) (now : N) (random36 : jsstring) (fuel : nat)
    (request : Request) (x : Exchange) :
  (∃ v, v ∈ [env_CLOUDINARY_CLOUD_NAME env; env_CLOUDINARY_API_KEY env;
             env_CLOUDINARY_API_SECRET env]
        ∧ (v = None ∨ v = Some [])) →
  Routes.convert_upload env service now random36 fuel request x
  = (Return (json_error 500 NOT_CONFIGURED), x)
  ∧ Routes.upload env service now random36 x
    = (Return (json_error 500 NOT_CONFIGURED), x).
Proof.
  intros (v & Hv & Hnil). apply or_default_nil in Hnil.
  assert (CLOUDINARY_ENABLED env = []) as He.
  { apply CLOUDINARY_ENABLED_spec.
    unfold CLOUDINARY_CLOUD_NAME, CLOUDINARY_API_KEY, CLOUDINARY_API_SECRET.
    apply elem_of_cons in Hv as [->|Hv]; [by left|].
    apply elem_of_cons in Hv as [->|Hv]; [by right; left|].
    apply elem_of_cons in Hv as [->|Hv]; [by right; right|].
    by apply not_elem_of_nil in Hv. }
  unfold Routes.convert_upload, Routes.upload.
  by rewrite !bool_decide_eq_true_2 by done.
Qed.

Lemma upload_routes_not_configured_witness :
  Routes.convert_upload
    {| env_CLOUDINARY_CLOUD_NAME := Some (js "demo");
       env_CLOUDINARY_API_KEY := Some [];
       env_CLOUDINARY_API_SECRET := Some (js "secret");
       env_CLOUDINARY_FOLDER := None |}
    sample_service 1700000000000 (js "0.4fzyo82mvyr") 100
    (request_with (js "bmp")) (exchange_of png_upload (Some (js "cat.png")))
  = (Return (json_error 500 NOT_CONFIGURED),
     exchange_of png_upload (Some (js "cat.png"))).
Proof.
  apply upload_routes_not_configured.
  exists (Some []). split; [|by right].
  apply list_elem_of_further, list_elem_of_here.
Defined.

(** X7. With Cloudinary configured, [/convert/upload] turns a request down
    exactly as [/convert] does: when [/convert] replies with an error (400
    for an unsupported format or a missing file, 415 for a head that is
    not accepted), [/convert/upload] replies with the same status and
    message and leaves the request in the same state, and nothing is
    uploaded.  When [/convert] never replies, neither does
    [/convert/upload]. *)
Theorem convert_upload_rejects_as_convert (env : ProcessEnv)
    (service : UploadService) (now : N) (random36 : jsstring) (fuel : nat)
    (request : Request) (x : Exchange) :
  CLOUDINARY_ENABLED env ≠ [] →
  (∀ r w' msg,
     Server.convert fuel request (world x) = (Return r, w') →
     payload r = ErrorJson msg →
     Routes.convert_upload env service now random36 fuel request x
     = (Return (json_error (code r) msg),
        mkExchange w' (filename x) (uploads x)))
  ∧ (∀ w',
       Server.convert fuel request (world x) = (Hang, w') →
       Routes.convert_upload env service now random36 fuel request x
       = (Hang, mkExchange w' (filename x) (uploads x))).
Proof.
  intros He. split.
  - intros r w' msg Hc Hp. by rewrite convert_upload_unfold, Hc, Hp.
  - intros w' Hc. by rewrite convert_upload_unfold, Hc.
Qed.

Lemma convert_upload_rejects_as_convert_witness :
  Routes.convert_upload sample_env sample_service 1700000000000
    (js "0.4fzyo82mvyr") 100 (request_with (js "png"))
    (exchange_of text_upload (Some (js "notes.txt")))
  = (Return (json_error 415 (js "Unsupported or invalid image signature")),
     mkExchange
       (snd (Server.convert 100 (request_with (js "png")) text_upload))
       (Some (js "notes.txt")) []).
Proof.
  apply (proj1 (convert_upload_rejects_as_convert sample_env sample_service
                  1700000000000 (js "0.4fzyo82mvyr") 100
                  (request_with (js "png"))
                  (exchange_of text_upload (Some (js "notes.txt")))
                  ltac:(done))
               (error_reply 415 (js "Unsupported or invalid image signature"))).
  - vm_compute. reflexivity.
  - reflexivity.
Defined.

(** X8. With Cloudinary configured, when [/convert] would answer a request
    with a stream, [/convert/upload] makes one upload: of that stream, fed
    with exactly the bytes of the uploaded file, to the configured folder
    (or "converted"), under the public id built from the file name, as an
    image and without overwriting.  The cleanup has been registered before.
    The reply is 200 with the fields of the result of the service, or 500
    "Cloudinary upload failed" when the service reports an error. *)
Theorem convert_upload_sends_source (env : ProcessEnv)
    (service : UploadService) (now : N) (random36 : jsstring) (fuel : nat)
    (request : Request) (x : Exchange) (r : Reply) (w' : World)
    (s : OutStream) :
  CLOUDINARY_ENABLED env ≠ [] →
  destroyed (source_of (world x)) = false →
  (ended (source_of (world x)) = true → upcoming (source_of (world x)) = []) →
  Server.convert fuel request (world x) = (Return r, w') →
  payload r = StreamPayload s →
  let call :=
    {| call_options :=
         {| Cloudinary.folder :=
              or_default (env_CLOUDINARY_FOLDER env) (js "converted");
            Cloudinary.public_id :=
              buildPublicId (filename x) now random36;
            Cloudinary.resource_type := js "image";
            Cloudinary.overwrite := false |};
       call_readable := ConvertedStream s;
       call_input := Stream.remaining (source_of (world x)) |} in
  ∃ x',
    Routes.convert_upload env service now random36 fuel request x
    = (Return (converted_reply (filename x) (service call)), x')
    ∧ uploads x' = uploads x ++ [call]
    ∧ closeListeners (world x')
      = closeListeners (world x) ++ [destroy_both]
    ∧ filename x' = filename x.
Proof.
  intros He Hd Hwf Hc Hp call.
  rewrite convert_upload_unfold, Hc, Hp by done.
  rewrite Server_convert_unfold in Hc. simpl in Hc.
  destruct (isAllowedFormat _); simpl in Hc; [|by simplify_eq].
  destruct (filePresent (world x)); simpl in Hc; [|by simplify_eq].
  destruct (Server.createConvertedStream _ _ _ _) as [[cr|e| |] w1] eqn:Hs;
    simplify_eq/=.
  pose proof Hs as Hret.
  apply createConvertedStream_round_trip in Hs as (body & Hb & Hw & _);
    [|by destruct (world x)..].
  apply createConvertedStream_returns in Hret as Hcl.
  assert (Pipe.delivered (Pipe.run_to_end (streams w1))
          = Stream.remaining (source_of (world x))) as Hin.
  { unfold Pipe.delivered. rewrite Hb, Hw. by destruct (world x). }
  destruct Hcl as (Hcr & _ & Hl).
  eexists. split; [|split; [|split]].
  - rewrite Hin. reflexivity.
  - done.
  - simpl. rewrite Hcr, Hl. by destruct (world x).
  - done.
Qed.

Lemma convert_upload_sends_source_witness :
  ∃ reply x',
    Routes.convert_upload sample_env sample_service 1700000000000
      (js "0.4fzyo82mvyr") 100 (request_with (js "webp"))
      (exchange_of png_upload (Some (js "My Cat.PNG")))
    = (Return reply, x')
    ∧ json_code reply = 200%N
    ∧ call_input <$> uploads x' = [png_file]
    ∧ Cloudinary.public_id ∘ call_options <$> uploads x'
      = [js "my-cat-1700000000000-4fzyo8"].
Proof.
  edestruct (convert_upload_sends_source sample_env sample_service
               1700000000000 (js "0.4fzyo82mvyr") 100
               (request_with (js "webp"))
               (exchange_of png_upload (Some (js "My Cat.PNG"))))
    as (x' & Hr & Hu & _).
  - done.
  - reflexivity.
  - done.
  - vm_compute. reflexivity.
  - reflexivity.
  - eexists _, x'. split; [exact Hr|]. split; [reflexivity|].
    rewrite Hu. split; [by vm_compute|by vm_compute].
Defined.

(** X9. [/upload] checks no signature.  With Cloudinary configured and a
    file in the request, the file is uploaded as it is, whatever its bytes
    and however few they are: the head is not peeked and not classified,
    the handler always replies, and no cleanup is registered for the close
    of the response.  The reply is 200 with the URL of the result and the
    transformed URLs built from it, or 500 "Cloudinary upload failed".
    Without a file the reply is 400 "No file uploaded" and nothing is
    uploaded. *)
Theorem upload_sends_file_unchecked (env : ProcessEnv)
    (service : UploadService) (now : N) (random36 : jsstring)
    (x : Exchange) :
  CLOUDINARY_ENABLED env ≠ [] →
  destroyed (source_of (world x)) = false →
  (ended (source_of (world x)) = true → upcoming (source_of (world x)) = []) →
  let call :=
    {| call_options :=
         {| Cloudinary.folder :=
              or_default (env_CLOUDINARY_FOLDER env) (js "converted");
            Cloudinary.public_id :=
              buildPublicId (filename x) now random36;
            Cloudinary.resource_type := js "image";
            Cloudinary.overwrite := false |};
       call_readable := FileStream;
       call_input := Stream.remaining (source_of (world x)) |} in
  ∃ x',
    Routes.upload env service now random36 x
    = (Return (if filePresent (world x)
               then uploaded_reply (service call)
               else json_error 400 (js "No file uploaded")), x')
    ∧ uploads x'
      = uploads x ++ (if filePresent (world x) then [call] else [])
    ∧ stages (world x') = stages (world x) ++ [FileRead]
    ∧ closeListeners (world x') = closeListeners (world x)
    ∧ bodyStream (streams (world x')) = bodyStream (streams (world x)).
Proof.
  intros He Hd Hwf call. rewrite upload_unfold by done.
  destruct (filePresent (world x)) eqn:Hf; cbn [negb]; cbv zeta.
  - destruct (pipeline_file (streams (Async.add_stage FileRead (world x))))
      as (Hin & Hb); [done..|].
    eexists. split; [|split; [|split; [|split]]].
    + unfold upload_call. rewrite Hin.
      replace (source_of (world x))
        with (sourceStream (streams (Async.add_stage FileRead (world x))))
        by (by destruct (world x)).
      reflexivity.
    + done.
    + done.
    + done.
    + cbn [world streams Async.set_streams]. rewrite Hb.
      by destruct (world x).
  - eexists. split; [reflexivity|]. simpl. by rewrite app_nil_r.
Qed.

Lemma upload_sends_file_unchecked_witness :
  ∃ reply x',
    Routes.upload sample_env sample_service 1700000000000
      (js "0.4fzyo82mvyr") (exchange_of text_upload (Some (js "notes.txt")))
    = (Return reply, x')
    ∧ json_code reply = 200%N
    ∧ call_input <$> uploads x' = [text_file]
    ∧ stages (world x') = [FileRead].
Proof.
  edestruct (upload_sends_file_unchecked sample_env sample_service
               1700000000000 (js "0.4fzyo82mvyr")
               (exchange_of text_upload (Some (js "notes.txt"))))
    as (x' & Hr & Hu & Hs & _).
  - done.
  - reflexivity.
  - done.
  - eexists _, x'. split; [exact Hr|]. split; [reflexivity|].
    rewrite Hu, Hs. split; [by vm_compute|done].
Defined.

(** X10. A request with an accepted format and no file part is answered
    with 400 "No file uploaded" by the [/convert] route of both servers;
    the file was asked for and nothing else happened: no stream is
    touched, no head is peeked and no close listener is registered. *)
Theorem convert_without_file (fuel : nat) (request : Request) (w : World) :
  isAllowedFormat (parse_format request) = true →
  filePresent w = false →
  Server.convert fuel request w
  = (Return (error_reply 400 (js "No file uploaded")),
     mkWorld false (streams w) (stages w ++ [FileRead]) (closeListeners w))
  ∧ Part000.convert fuel request w
    = (Return (error_reply 400 (js "No file uploaded")),
       mkWorld false (streams w) (stages w ++ [FileRead]) (closeListeners w)).
Proof.
  intros Ha Hf.
  rewrite Server_convert_unfold, Part000_convert_unfold. simpl.
  rewrite Ha, Hf. simpl. unfold Async.add_stage. by rewrite Hf.
Qed.

Lemma convert_without_file_witness :
  Server.convert 100 (request_with (js "png"))
    (mkWorld false (mkStreams (source_with [] [] false) None false) [] [])
  = (Return (error_reply 400 (js "No file uploaded")),
     mkWorld false (mkStreams (source_with [] [] false) None false)
             [FileRead] []).
Proof.
  apply (convert_without_file 100 (request_with (js "png"))
           (mkWorld false (mkStreams (source_with [] [] false) None false)
                    [] [])); reflexivity.
Defined.

(** X11. The two servers answer [/convert] alike.  For every request and
    every upload the single-route server ends in the same state as
    [server.js] and gives the same outcome, with one difference: when it
    passes an SVG through it does not set the [Content-Disposition] header
    that [server.js] sets. *)
Theorem servers_agree_on_convert (fuel : nat) (request : Request) (w : World) :
  (Server.convert fuel request w).2 = (Part000.convert fuel request w).2
  ∧ match (Server.convert fuel request w).1,
          (Part000.convert fuel request w).1 with
    | Return r, Return r' =>
      code r' = code r ∧ replyType r' = replyType r
      ∧ payload r' = payload r
      ∧ replyHeaders r
        = (if bool_decide (code r = 200%N)
           then [content_disposition (parse_format request)] else [])
      ∧ replyHeaders r'
        = (if JS.eqs (parse_format request) (js "svg") then []
           else replyHeaders r)
    | Hang, Hang => True
    | OutOfFuel, OutOfFuel => True
    | _, _ => False
    end.
Proof.
  rewrite Server_convert_unfold, Part000_convert_unfold. simpl.
  destruct (isAllowedFormat (parse_format request)); simpl;
    [|by destruct (JS.eqs _ _)].
  destruct (filePresent w); simpl; [|by destruct (JS.eqs _ _)].
  destruct (Server.createConvertedStream _ _ _ _) as [[cr|e| |] w'] eqn:Hs;
    simpl; try done.
  - apply createConvertedStream_throws in Hs as [->| ->]; simpl;
      by destruct (JS.eqs _ _).
Qed.

(* ===================================================================== *)
(** * The streams after the cleanup, and what the peek takes *)
(* ===================================================================== *)

Lemma flow_turn_destroyed (st : Streams) :
  destroyed (sourceStream st) = true → Pipe.flow_turn st = st.
Proof.
  intros Hd. unfold Pipe.flow_turn. rewrite Hd, !andb_false_r.
  by destruct (bodyStream st).
Qed.

Lemma turn_destroyed (st : Streams) :
  destroyed (sourceStream st) = true → Pipe.turn st = st.
Proof. intros Hd. unfold Pipe.turn. by rewrite Hd, orb_true_r. Qed.

Lemma run_to_end_destroyed (st : Streams) :
  destroyed (sourceStream st) = true → Pipe.run_to_end st = st.
Proof.
  intros Hd. unfold Pipe.run_to_end. rewrite flow_turn_destroyed by done.
  induction (S _) as [|n IH]; [done|]. simpl. rewrite IH.
  by apply turn_destroyed.
Qed.

Lemma delivered_destroy_both (st : Streams) :
  Pipe.delivered (destroy_both st) = Pipe.delivered st.
Proof.
  unfold Pipe.delivered, destroy_both. simpl.
  destruct (bodyStream st) as [p|]; [|done]. simpl.
  unfold Stream.pt_destroy. by destruct (pt_destroyed p).
Qed.

(** X12. After the cleanup nothing flows any more.  At whatever point of
    the transfer the response closes, the cleanup leaves in the body
    stream the bytes that had reached it, and the chunks the parser still
    pushes are not delivered: the streams stay as the cleanup left them. *)
Theorem nothing_flows_after_cleanup (st : Streams) (turns : nat) :
  let now := Nat.iter turns Pipe.turn st in
  Pipe.run_to_end (destroy_both now) = destroy_both now
  ∧ Pipe.turn (destroy_both now) = destroy_both now
  ∧ Pipe.delivered (destroy_both now) = Pipe.delivered now.
Proof.
  intros now.
  assert (destroyed (sourceStream (destroy_both now)) = true) as Hd
    by apply destroy_destroyed.
  split; [by apply run_to_end_destroyed|].
  split; [by apply turn_destroyed|]. apply delivered_destroy_both.
Qed.

(** X13. What [readHead] returns is taken from the front of the source and
    nothing is lost: the head followed by what the source has still to
    deliver is what the source had to deliver before, and the head has at
    most [size] bytes.  The peek changes nothing else of the request, and
    it neither destroys the source nor changes its mode. *)
Theorem readHead_takes_a_prefix (fuel size : nat) (w : World) (head : Buffer)
    (w' : World) :
  readHead fuel size w = (Return head, w') →
  head ++ Stream.remaining (source_of w') = Stream.remaining (source_of w)
  ∧ length head ≤ size
  ∧ w' = with_source (source_of w') w
  ∧ destroyed (source_of w') = destroyed (source_of w)
  ∧ flowing (source_of w') = flowing (source_of w)
  ∧ closeEmitted (source_of w') = closeEmitted (source_of w).
Proof.
  intros Hr.
  apply readHead_loop_inv in Hr
    as (s' & more & -> & -> & Hm & Hlen & Hf & Hd & Hc & _); [|done|lia].
  rewrite !source_of_with_source. simpl in *.
  by repeat split.
Qed.

Lemma readHead_takes_a_prefix_witness :
  ∃ head w',
    readHead 100 4100 png_upload = (Return head, w')
    ∧ head ++ Stream.remaining (source_of w') = png_file
    ∧ length head ≤ 4100.
Proof.
  eexists _, _. split; [vm_compute; reflexivity|].
  edestruct (readHead_takes_a_prefix 100 4100 png_upload) as (H1 & H2 & _).
  { vm_compute. reflexivity. }
  split; [|exact H2]. rewrite H1. by vm_compute.
Defined.

(* ===================================================================== *)
(** * What the classifier looks at *)
(* ===================================================================== *)

Lemma take_header (n : nat) (b b' : Buffer) :
  n ≤ 12 → take 12 b = take 12 b' → take n b = take n b'.
Proof.
  intros Hn H.
  rewrite <-(Nat.min_l n 12) by done.
  rewrite <-(take_take b), <-(take_take b'). by rewrite H.
Qed.

Lemma window_header (a n : nat) (b b' : Buffer) :
  a + n ≤ 12 → take 12 b = take 12 b' →
  take n (drop a b) = take n (drop a b').
Proof.
  intros Hn H.
  rewrite <-(header_window a n b), <-(header_window a n b') by done.
  by rewrite H.
Qed.

(** The five signatures of raster images are read in the first twelve
    bytes. *)
Lemma raster_rules_header (b b' : Buffer) :
  take 12 b = take 12 b' →
  Rule.png b = Rule.png b' ∧ Rule.jpeg b = Rule.jpeg b'
  ∧ Rule.webp_7bit b = Rule.webp_7bit b' ∧ Rule.avif b = Rule.avif b'
  ∧ Rule.gif_7bit b = Rule.gif_7bit b'.
Proof.
  intros H.
  unfold Rule.png, Rule.jpeg, Rule.webp_7bit, Rule.avif, Rule.gif_7bit.
  rewrite (take_header 8 b b'), (take_header 3 b b'), (take_header 4 b b'),
    (take_header 6 b b'), (window_header 8 4 b b'), (window_header 4 8 b b')
    by (done || lia).
  done.
Qed.

(** X14. A raster kind is decided by the first twelve bytes alone: when a
    buffer is classified as png, jpeg, webp, avif or gif, every buffer
    with the same first twelve bytes is classified the same, whatever
    follows.  Only the SVG rule reads further. *)
Theorem detectMagic_raster_by_header (b b' : Buffer) :
  take 12 b = take 12 b' →
  valid (detectMagic b) = true →
  kind (detectMagic b) ≠ js "svg" →
  detectMagic b' = detectMagic b.
Proof.
  intros H Hv Hk.
  destruct (raster_rules_header b b' H) as (Hp & Hj & Hw & Ha & Hg).
  rewrite !detectMagic_unfold in *. rewrite <-Hp, <-Hj, <-Hw, <-Ha, <-Hg.
  repeat (case_match; [done|]).
  by destruct (Rule.svg b).
Qed.

Lemma detectMagic_raster_by_header_witness :
  detectMagic (take 12 png_file ++ bytes "<svg> and anything else")
  = detectMagic png_file.
Proof.
  apply detectMagic_raster_by_header;
    [by vm_compute|by vm_compute|by vm_compute].
Defined.

Lemma includes_full (pattern s : jsstring) :
  length s ≤ length pattern → JS.includes pattern s = true → s = pattern.
Proof.
  induction s as [|c s IH]; intros Hl.
  - simpl. rewrite orb_false_r. unfold JS.startsWith.
    intros Hs%bool_decide_eq_true. by rewrite take_nil in Hs.
  - rewrite includes_cons. intros [Hs|Hs]%orb_true_iff.
    + unfold JS.startsWith in Hs. apply bool_decide_eq_true in Hs.
      by rewrite take_ge in Hs.
    + apply IH in Hs; [|simpl in Hl; lia]. subst. simpl in Hl. lia.
Qed.

(** X15. The AVIF rule looks for the brand in the eight characters at
    offsets 4 to 11, and the brand has eight characters: a buffer is
    classified as avif only when it has at least twelve bytes and these
    eight, with their highest bit cleared, are exactly "ftypavif" or
    "ftypavis". *)
Theorem detectMagic_avif_brand (b : Buffer) :
  kind (detectMagic b) = js "avif" →
  12 ≤ length b
  ∧ (JS.toString_ascii (take 8 (drop 4 b)) = js "ftypavif"
     ∨ JS.toString_ascii (take 8 (drop 4 b)) = js "ftypavis").
Proof.
  rewrite detectMagic_unfold.
  repeat (case_match; [done|]).
  destruct (Rule.avif b) eqn:Ha; [intros _|by repeat case_match].
  unfold Rule.avif in Ha.
  assert (length (JS.toString_ascii (take 8 (drop 4 b))) ≤ 8) as Hl.
  { unfold JS.toString_ascii. rewrite length_fmap, length_take. lia. }
  assert (JS.toString_ascii (take 8 (drop 4 b)) = js "ftypavif"
          ∨ JS.toString_ascii (take 8 (drop 4 b)) = js "ftypavis") as Hb.
  { apply orb_true_iff in Ha as [Ha|Ha]; [left|right];
      by apply includes_full in Ha. }
  split; [|done].
  assert (length (JS.toString_ascii (take 8 (drop 4 b))) = 8) as Hl8
    by (by destruct Hb as [-> | ->]).
  unfold JS.toString_ascii in Hl8.
  rewrite length_fmap, length_take, length_drop in Hl8. lia.
Qed.

Lemma detectMagic_avif_brand_witness :
  12 ≤ length ([Byte.x00; Byte.x00; Byte.x00; Byte.x1c] ++ bytes "ftypavif").
Proof.
  apply (detectMagic_avif_brand
           ([Byte.x00; Byte.x00; Byte.x00; Byte.x1c] ++ bytes "ftypavif")).
  by vm_compute.
Defined.

Lemma utf8_lead_lower (n : N) (s : JS.Utf8Pending) :
  (JS.utf8_lead n).2 = Some s → (0x80 ≤ JS.u_lower s)%N.
Proof.
  unfold JS.utf8_lead. repeat case_match; simpl; intros [= <-]; simpl;
    repeat case_match; lia.
Qed.

(** The decoder reads a buffer piece by piece: what it has made of the
    first piece stays, and it goes on from the state it is in. *)
Lemma utf8_decode_app (p rest : Buffer) :
  ∀ st,
    (∀ s, st = Some s → (0x80 ≤ JS.u_lower s)%N) →
    ∃ out st',
      JS.utf8_decode st (p ++ rest) = out ++ JS.utf8_decode st' rest
      ∧ (∀ s, st' = Some s → (0x80 ≤ JS.u_lower s)%N).
Proof.
  induction p as [|b p IH]; intros st Hst.
  { by exists [], st. }
  change ((b :: p) ++ rest) with (b :: (p ++ rest)).
  destruct st as [s|].
  - cbn [JS.utf8_decode].
    destruct ((JS.u_lower s <=? Byte.to_N b)%N
              && (Byte.to_N b <=? JS.u_upper s)%N).
    + destruct (JS.u_needed s) as [|[|k]].
      * destruct (IH None) as (out & st' & -> & H); [done|].
        by eexists (_ :: out), st'.
      * destruct (IH None) as (out & st' & -> & H); [done|].
        by eexists (_ :: out), st'.
      * match goal with
        | |- context [JS.utf8_decode (Some ?u) (p ++ rest)] =>
          destruct (IH (Some u)) as (out & st' & -> & H)
        end.
        { intros s' [= <-]. simpl. lia. }
        by eexists out, st'.
    + destruct (JS.utf8_lead (Byte.to_N b)) as [o st1] eqn:E.
      destruct (IH st1) as (out & st' & -> & H).
      { intros s' ->. apply (utf8_lead_lower (Byte.to_N b)). by rewrite E. }
      exists (0xFFFD%N :: o ++ out), st'. split; [|done].
      by rewrite <-app_comm_cons, (assoc_L (++)).
  - cbn [JS.utf8_decode].
    destruct (JS.utf8_lead (Byte.to_N b)) as [o st1] eqn:E.
    destruct (IH st1) as (out & st' & -> & H).
    { intros s' ->. apply (utf8_lead_lower (Byte.to_N b)). by rewrite E. }
    exists (o ++ out), st'. split; [|done]. by rewrite (assoc_L (++)).
Qed.

(** A tag is decoded as its four characters, whatever the decoder was in
    the middle of. *)
Lemma utf8_decode_tag (t q : Buffer) (st : option JS.Utf8Pending) :
  svg_tag t →
  (∀ s, st = Some s → (0x80 ≤ JS.u_lower s)%N) →
  ∃ pre,
    JS.utf8_decode st (t ++ q)
    = pre ++ (Byte.to_N <$> t) ++ JS.utf8_decode None q.
Proof.
  intros (s & v & g & -> & Hs & Hv & Hg) Hst.
  assert (∃ pre, JS.utf8_decode st (Byte.x3c :: s :: v :: g :: q)
                 = pre ++ 0x3C%N :: JS.utf8_decode None (s :: v :: g :: q))
    as (pre & Hpre).
  { destruct st as [p|]; [|by exists []].
    exists [0xFFFD%N]. cbn [JS.utf8_decode].
    specialize (Hst p eq_refl).
    assert ((JS.u_lower p <=? Byte.to_N Byte.x3c)%N = false) as ->; [|done].
    apply N.leb_gt. change (Byte.to_N Byte.x3c) with 0x3C%N. lia. }
  exists pre. change ([Byte.x3c; s; v; g] ++ q) with (Byte.x3c :: s :: v :: g :: q).
  rewrite Hpre. f_equal.
  apply elem_of_cons in Hs as [->|Hs%list_elem_of_singleton];
  apply elem_of_cons in Hv as [->|Hv%list_elem_of_singleton];
  apply elem_of_cons in Hg as [->|Hg%list_elem_of_singleton];
  by subst.
Qed.

Lemma includes_app (pattern a b : jsstring) :
  JS.includes pattern (a ++ pattern ++ b) = true.
Proof.
  induction a as [|c a IH].
  - simpl app.
    assert (JS.startsWith pattern (pattern ++ b) = true) as Hs.
    { unfold JS.startsWith. apply bool_decide_eq_true_2, take_app_length. }
    destruct (pattern ++ b); simpl; by rewrite Hs.
  - change ((c :: a) ++ pattern ++ b) with (c :: (a ++ pattern ++ b)).
    by rewrite includes_cons, IH, orb_true_r.
Qed.

(** The SVG rule finds a tag wherever it is. *)
Lemma svg_rule_anywhere (p t q : Buffer) :
  svg_tag t → Rule.svg (p ++ t ++ q) = true.
Proof.
  intros Ht. unfold Rule.svg, JS.toString_utf8.
  destruct (utf8_decode_app p (t ++ q) None) as (out & st & -> & Hst); [done|].
  destruct (utf8_decode_tag t q st Ht Hst) as (pre & ->).
  unfold JS.toLowerCase. rewrite !bind_app.
  assert (((Byte.to_N <$> t) ≫= JS.utf16_units) ≫= JS.toLowerCase_unit
          = js "<svg") as ->.
  2: { rewrite (assoc_L (++)). apply includes_app. }
  destruct Ht as (s & v & g & -> & Hs & Hv & Hg).
  apply elem_of_cons in Hs as [->|Hs%list_elem_of_singleton];
  apply elem_of_cons in Hv as [->|Hv%list_elem_of_singleton];
  apply elem_of_cons in Hg as [->|Hg%list_elem_of_singleton];
  by subst.
Qed.

(** X16. The four bytes "<svg", in any letter case and anywhere in the
    buffer, make the buffer valid: whatever bytes come before and after
    them, also bytes that are no text or cut a UTF-8 sequence short.  The
    buffer is then classified as svg unless one of the five raster
    signatures is found in its first twelve bytes. *)
Theorem detectMagic_svg_anywhere (p t q : Buffer) :
  svg_tag t →
  valid (detectMagic (p ++ t ++ q)) = true
  ∧ (kind (detectMagic (p ++ t ++ q)) = js "svg"
     ↔ Rule.png (p ++ t ++ q) || Rule.jpeg (p ++ t ++ q)
       || Rule.webp_7bit (p ++ t ++ q) || Rule.avif (p ++ t ++ q)
       || Rule.gif_7bit (p ++ t ++ q) = false).
Proof.
  intros Ht.
  rewrite !detectMagic_unfold, (svg_rule_anywhere p t q Ht).
  destruct (Rule.png _); [done|]. destruct (Rule.jpeg _); [done|].
  destruct (Rule.webp_7bit _); [done|]. destruct (Rule.avif _); [done|].
  by destruct (Rule.gif_7bit _).
Qed.

Lemma detectMagic_svg_anywhere_witness :
  valid (detectMagic ([Byte.xe2; Byte.x82] ++ bytes "<SvG" ++ [Byte.xff]))
  = true.
Proof.
  apply (detectMagic_svg_anywhere [Byte.xe2; Byte.x82] (bytes "<SvG")
           [Byte.xff]).
  exists Byte.x53, Byte.x76, Byte.x47. split; [done|].
  split; [|split].
  - apply list_elem_of_further, list_elem_of_here.
  - apply list_elem_of_here.
  - apply list_elem_of_further, list_elem_of_here.
Defined.

(* ===================================================================== *)
(** * The encoder and the content type *)
(* ===================================================================== *)

(** X17. The encoder and the content type go together for every format
    token, not only for the accepted ones: [applyOutputFormat] adds one
    encoder call to the transformer and [contentTypeForFormat] gives the
    content type of that encoder.  Every token other than "webp", "png",
    "jpeg" and "jpg" gets AVIF, also "svg". *)
Theorem encoder_matches_content_type (transformer : Sharp)
    (format : jsstring) :
  ∃ op,
    applyOutputFormat transformer format = sharp_call op transformer
    ∧ content_type_of op = Some (contentTypeForFormat format)
    ∧ (op = Avif 50 4
       ↔ format ∉ [js "webp"; js "png"; js "jpeg"; js "jpg"]).
Proof.
  unfold applyOutputFormat, contentTypeForFormat.
  destruct (JS.eqs format (js "webp")) eqn:E1.
  { apply eqs_true in E1 as ->. eexists. split; [done|]. split; [done|].
    split; [done|]. intros H. destruct H. apply list_elem_of_here. }
  destruct (JS.eqs format (js "png")) eqn:E2.
  { apply eqs_true in E2 as ->. eexists. split; [done|]. split; [done|].
    split; [done|]. intros H. destruct H.
    apply list_elem_of_further, list_elem_of_here. }
  destruct (JS.eqs format (js "jpeg")) eqn:E3.
  { apply eqs_true in E3 as ->. eexists. split; [done|]. split; [done|].
    split; [done|]. intros H. destruct H.
    do 2 apply list_elem_of_further. apply list_elem_of_here. }
  destruct (JS.eqs format (js "jpg")) eqn:E4.
  { apply eqs_true in E4 as ->. eexists. split; [done|]. split; [done|].
    split; [done|]. intros H. destruct H.
    do 3 apply list_elem_of_further. apply list_elem_of_here. }
  apply eqs_false in E1, E2, E3, E4.
  eexists. split; [done|]. split; [done|]. split; [|done].
  intros _ H.
  apply elem_of_cons in H as [?|H]; [done|].
  apply elem_of_cons in H as [?|H]; [done|].
  apply elem_of_cons in H as [?|H]; [done|].
  by apply list_elem_of_singleton in H.
Qed.

Lemma encoder_matches_content_type_witness :
  (js "svg" ∉ [js "webp"; js "png"; js "jpeg"; js "jpg"])
  ∧ applyOutputFormat sharp_new (js "svg") = sharp_call (Avif 50 4) sharp_new.
Proof.
  destruct (encoder_matches_content_type sharp_new (js "svg"))
    as (op & Ha & _ & Hop).
  assert (js "svg" ∉ [js "webp"; js "png"; js "jpeg"; js "jpg"]) as Hn.
  { intros H.
    apply elem_of_cons in H as [?|H]; [done|].
    apply elem_of_cons in H as [?|H]; [done|].
    apply elem_of_cons in H as [?|H]; [done|].
    by apply list_elem_of_singleton in H. }
  split; [exact Hn|]. rewrite Ha. f_equal. by apply Hop.
Defined.

(* ===================================================================== *)
(** * The head the classifier is given *)
(* ===================================================================== *)

Lemma read_endScheduled (n : nat) (s : Readable) (chunk : option Buffer)
    (s' : Readable) :
  Stream.read n s = (chunk, s') →
  endScheduled s' = true → endScheduled s = true ∨ ended s = true.
Proof.
  unfold Stream.read. repeat case_bool_decide.
  - intros [= _ <-]. by left.
  - intros [= _ <-]. by left.
  - destruct (ended s); [by right|]. intros [= _ <-]. by left.
Qed.

(** On a source whose ['end'] has not been emitted the loop does not leave
    by its [break]: when it returns it has collected [size] bytes. *)
Lemma readHead_loop_full (fuel : nat) :
  ∀ size total chunks w head w',
    peekable (source_of w) →
    total = length (concat chunks) →
    total ≤ size →
    readHead_loop fuel size total chunks w = (Return head, w') →
    length head = size.
Proof.
  induction fuel as [|fuel IH]; intros size total chunks w head w' Hp Ht Hle;
    [done|].
  destruct (decide (total < size)) as [Hlt|Hlt].
  2: { rewrite loop_done by done. intros [= <- <-]. subst total.
       rewrite Buffer_concat_exact. lia. }
  destruct Hp as (Hee & Hd & Hes & Hu).
  destruct (Stream.read (size - total) (source_of w)) as [[c|] s1] eqn:Hr;
    pose proof (read_spec _ _ _ _ Hr)
      as (Hc & _ & Hu1 & He1 & Hee1 & _ & Hd1 & _);
    pose proof (read_endScheduled _ _ _ _ Hr) as Hes1.
  - rewrite (loop_read _ _ _ _ _ c s1) by done. simpl in Hc. apply IH.
    + rewrite source_of_with_source. repeat split; try congruence.
      * intros H. rewrite He1. destruct (Hes1 H); auto.
      * rewrite Hu1, He1. done.
    + rewrite concat_app, length_app. simpl. rewrite app_nil_r. lia.
    + lia.
  - assert (Stream.readableEnded s1 = false) as He
      by (unfold Stream.readableEnded; congruence).
    destruct (Stream.once_readable s1) as [s2|] eqn:Ho.
    2: { by rewrite (loop_hang _ _ _ _ _ s1). }
    rewrite (loop_wait _ _ _ _ _ s1 s2) by done.
    apply once_readable_spec in Ho
      as (_ & He2 & _ & Hd2 & _ & Hes2 & Hee2 & Hs2).
    assert (endScheduled s1 = false) as Hns.
    { destruct (endScheduled s1) eqn:E; [|done].
      destruct (Hes1 eq_refl) as [H|H]; [|congruence].
      apply Hes in H. congruence. }
    apply IH; [|done..].
    rewrite source_of_with_source. repeat split.
    + rewrite Hee2, Hns. unfold Stream.readableEnded in He. by rewrite He.
    + congruence.
    + congruence.
    + rewrite Hs2. unfold Stream.push_next. simpl.
      destruct (upcoming s1); simpl; [done|]. by rewrite He2.
Qed.

(** X19. On a source nobody has read from, a head that [readHead] returns
    is never short: it is exactly the first [size] bytes of the source,
    and the source keeps exactly the rest.  So the classifier is only
    ever given a head of 4100 bytes. *)
Theorem readHead_head_is_full (fuel size : nat) (w : World) (head : Buffer)
    (w' : World) :
  fresh (source_of w) →
  0 < size →
  readHead fuel size w = (Return head, w') →
  head = take size (Stream.remaining (source_of w))
  ∧ length head = size
  ∧ Stream.remaining (source_of w')
    = drop size (Stream.remaining (source_of w)).
Proof.
  intros Hf Hs Hr. unfold readHead in Hr.
  assert (length head = size) as Hfull.
  { eapply (readHead_loop_full fuel size 0 [] w);
      [by apply fresh_peekable|done|lia|exact Hr]. }
  apply readHead_loop_inv in Hr as (s' & more & -> & -> & Hm & _);
    [|done|simpl; lia].
  simpl in *. rewrite source_of_with_source, <-Hm.
  split; [by rewrite take_app_length'|]. split; [done|].
  by rewrite drop_app_length'.
Qed.

Lemma readHead_head_is_full_witness :
  ∃ head w',
    readHead 100 4100 png_upload = (Return head, w')
    ∧ head = take 4100 png_file.
Proof.
  eexists _, _. split; [vm_compute; reflexivity|].
  edestruct (readHead_head_is_full 100 4100 png_upload) as (H1 & _).
  - by vm_compute.
  - lia.
  - vm_compute. reflexivity.
  - rewrite H1. by vm_compute.
Defined.

(* ===================================================================== *)
(** * What a request can be answered *)
(* ===================================================================== *)

Lemma toLowerCase_comma (a b : jsstring) :
  0x2C%N ∈ JS.toLowerCase (a ++ js "," ++ b).
Proof.
  unfold JS.toLowerCase. rewrite !bind_app.
  apply elem_of_app. right. apply elem_of_app. left.
  apply list_elem_of_here.
Qed.

Lemma token_without_comma (token : jsstring) :
  token ∈ allowed_tokens → 0x2C%N ∉ token.
Proof.
  intros H. apply (bool_decide_eq_false _). revert H.
  unfold allowed_tokens. rewrite !elem_of_cons, elem_of_nil.
  intros [->|[->|[->|[->|[->|[->|[]]]]]]]; by vm_compute.
Qed.

(** X20. A format given more than once in the query string is rejected.
    The values are joined with commas, the result is no format token, and
    both servers answer 400 without reading the file, whatever the values
    are, also when each of them is an accepted format. *)
Theorem repeated_format_rejected (fuel : nat) (request : Request) (w : World)
    (a b : jsstring) (rest : list jsstring) :
  query_get request "format" = Some (QArr a b rest) →
  isAllowedFormat (parse_format request) = false
  ∧ Server.convert fuel request w
    = (Return (error_reply 400 UNSUPPORTED_FORMAT), w)
  ∧ Part000.convert fuel request w
    = (Return (error_reply 400 UNSUPPORTED_FORMAT), w).
Proof.
  intros Hq.
  assert (isAllowedFormat (parse_format request) = false) as Hn.
  { apply not_true_iff_false. intros H%isAllowedFormat_spec.
    assert (0x2C%N ∈ parse_format request) as Hc.
    { unfold parse_format. rewrite Hq. simpl QVal.truthy. cbv iota.
      unfold QVal.toString.
      change (JS.join (a :: b :: rest))
        with (a ++ js "," ++ JS.join (b :: rest)).
      apply toLowerCase_comma. }
    by apply token_without_comma in H. }
  split; [done|].
  rewrite Server_convert_unfold, Part000_convert_unfold. simpl.
  by rewrite Hn.
Qed.

Lemma repeated_format_rejected_witness :
  Server.convert 100
    {| query := Some {[ "format" := QArr (js "png") (js "webp") [] ]} |}
    png_upload
  = (Return (error_reply 400 UNSUPPORTED_FORMAT), png_upload).
Proof.
  apply (repeated_format_rejected 100
           {| query := Some {[ "format" := QArr (js "png") (js "webp") [] ]} |}
           png_upload (js "png") (js "webp") []).
  reflexivity.
Defined.

(** X21. A reply of the [/convert] handler of [server.js] has status 200,
    400 or 415.  With status 200 the format of the request is one of the
    six format tokens, and the [Content-Disposition] header the handler
    sets names the file "converted." followed by that token: no text of
    the request gets into the header as it came. *)
Theorem convert_replies (fuel : nat) (request : Request) (w : World)
    (reply : Reply) (w' : World) :
  Server.convert fuel request w = (Return reply, w') →
  code reply ∈ [200%N; 400%N; 415%N]
  ∧ (code reply = 200%N →
     parse_format request ∈ allowed_tokens
     ∧ ∀ header,
         header ∈ replyHeaders reply →
         header = content_disposition (parse_format request)).
Proof.
  rewrite Server_convert_unfold. simpl.
  destruct (isAllowedFormat (parse_format request)) eqn:Ha; simpl.
  2: { intros [= <- _]. split; [|done].
       apply list_elem_of_further, list_elem_of_here. }
  destruct (filePresent w); simpl.
  2: { intros [= <- _]. split; [|done].
       apply list_elem_of_further, list_elem_of_here. }
  destruct (Server.createConvertedStream _ _ _ _) as [[cr|e| |] w1] eqn:Hs;
    try done.
  - intros [= <- _]. split; [apply list_elem_of_here|]. intros _.
    apply isAllowedFormat_spec in Ha. split; [done|].
    intros header Hh. by apply list_elem_of_singleton in Hh.
  - intros [= <- _].
    apply createConvertedStream_throws in Hs as [->| ->];
      (split; [do 2 apply list_elem_of_further; apply list_elem_of_here|done]).
Qed.

Lemma convert_replies_witness :
  parse_format (request_with (js "WebP")) ∈ allowed_tokens.
Proof.
  destruct (convert_replies 5 (request_with (js "WebP")) png_upload
              _ _ eq_refl) as (_ & H).
  by destruct (H eq_refl) as (Ht & _).
Defined.

(* ===================================================================== *)
(** * The SVG route *)
(* ===================================================================== *)

Lemma kind_svg_valid (b : Buffer) :
  kind (detectMagic b) = js "svg" → valid (detectMagic b) = true.
Proof. rewrite detectMagic_unfold. by repeat case_match. Qed.

(** X22. An upload whose first 4100 bytes are in the buffer when the
    handler starts, are classified as svg and that is asked for as SVG is
    answered: the reply has status 200 and the content type image/svg+xml,
    and its stream delivers the upload byte for byte.  No transformer is
    created; the head was peeked and classified, and that is all that was
    done to the file. *)
Theorem svg_passed_through_as_it_is (fuel : nat) (request : Request)
    (w : World) :
  parse_format request = js "svg" →
  filePresent w = true →
  fresh (source_of w) →
  4100 ≤ length (buffered (source_of w)) →
  2 ≤ fuel →
  kind (detectMagic (take 4100 (buffered (source_of w)))) = js "svg" →
  ∃ w',
    Server.convert fuel request w
    = (Return {| code := 200;
                 replyType := Some (js "image/svg+xml");
                 replyHeaders := [content_disposition (js "svg")];
                 payload := StreamPayload BodyStream |}, w')
    ∧ Pipe.delivered (Pipe.run_to_end (streams w'))
      = Stream.remaining (source_of w)
    ∧ stages w' = stages w ++ [FileRead; HeadPeek; Classify]
    ∧ closeListeners w' = closeListeners w ++ [destroy_both].
Proof.
  intros Hfmt Hfile Hf Hlen Hfuel Hk.
  destruct fuel as [|[|fuel]]; [lia..|].
  set (w0 := Async.add_stage FileRead w).
  assert (source_of w0 = source_of w) as Hsrc by (by destruct w).
  destruct (createConvertedStream_buffered fuel (js "svg")
              (parse_keepMetadata request) w0) as (cr & w1 & Hc);
    [by rewrite Hsrc|rewrite Hsrc; by apply kind_svg_valid|by rewrite Hsrc|].
  change (2 + fuel) with (S (S fuel)) in Hc.
  pose proof (createConvertedStream_result _ _ _ _ _ _ Hc) as Hcr.
  change (JS.eqs (js "svg") (js "svg")) with true in Hcr. cbv iota in Hcr.
  pose proof (createConvertedStream_round_trip _ _ _ _ _ _
                ltac:(rewrite Hsrc; apply Hf)
                ltac:(rewrite Hsrc; apply Hf) Hc) as (body & Hb & Hw & _).
  pose proof (createConvertedStream_returns _ _ _ _ _ _ Hc) as (_ & _ & Hl).
  assert (stages w1 = stages w0 ++ [HeadPeek; Classify]) as Hst.
  { revert Hc. rewrite createConvertedStream_unfold.
    destruct (readHead (S (S fuel)) 4100 (peek_start w0))
      as [[head|e| |] w2] eqn:Hr; try done.
    apply readHead_frame in Hr as (s' & -> & _). simpl.
    destruct (valid (detectMagic head)); simpl; [|done].
    change (JS.eqs (js "svg") (js "svg")) with true. simpl.
    destruct (JS.eqs _ _); simpl; [|done].
    intros [= _ <-]. simpl. by rewrite <-(assoc_L (++)). }
  exists (Async.add_listener (cleanup cr) w1).
  rewrite Server_convert_unfold. simpl. rewrite Hfmt.
  change (isAllowedFormat (js "svg")) with true. rewrite Hfile. simpl.
  fold w0. rewrite Hc, Hcr. simpl. split; [done|]. split; [|split].
  - unfold Pipe.delivered. by rewrite Hb, Hw, Hsrc.
  - rewrite Hst. unfold w0. simpl. by rewrite <-(assoc_L (++)).
  - rewrite Hl. by destruct w.
Qed.

Lemma svg_passed_through_as_it_is_witness :
  ∃ w',
    (Server.convert 100 (request_with (js "svg")) svg_upload).2 = w'
    ∧ Pipe.delivered (Pipe.run_to_end (streams w')) = svg_file.
Proof.
  edestruct (svg_passed_through_as_it_is 100 (request_with (js "svg"))
               svg_upload) as (w' & Hr & Hd & _).
  - by vm_compute.
  - reflexivity.
  - by vm_compute.
  - vm_compute. lia.
  - lia.
  - by vm_compute.
  - exists w'. rewrite Hr. split; [done|]. rewrite Hd. by vm_compute.
Defined.

(* ===================================================================== *)
(** * Sample runs *)
(* ===================================================================== *)

Example detectMagic_riff :
  kind (detectMagic (bytes "RIFF" ++ [Byte.x00; Byte.x00; Byte.x00; Byte.x00]
                     ++ bytes "WEBPVP8 "))
  = js "webp".
Proof. vm_compute. reflexivity. Qed.

Example detectMagic_svg :
  detectMagic (bytes "<?xml version='1.0'?><SVG xmlns='x'/>")
  = {| valid := true; kind := js "svg" |}.
Proof. vm_compute. reflexivity. Qed.

Example detectMagic_short :
  detectMagic [Byte.xff; Byte.xd8] = {| valid := false; kind := js "unknown" |}.
Proof. vm_compute. reflexivity. Qed.

(** A PNG upload converted to WEBP. *)
Example convert_png_to_webp :
  (Server.convert 5 (request_with (js "webp")) png_upload).1
  = Return {| code := 200;
              replyType := Some (js "image/webp");
              replyHeaders := [content_disposition (js "webp")];
              payload :=
                StreamPayload
                  (Transformed {| failOnError := false;
                                  sequentialRead := true;
                                  ops := [Rotate; Webp 80 4] |}) |}.
Proof. vm_compute. reflexivity. Qed.

(** A JPEG-free upload asked for as SVG, and an SVG passed through. *)
Example convert_png_to_svg :
  (Server.convert 5 (request_with (js "svg")) png_upload).1
  = Return (error_reply 415 (js "SVG output only supported for SVG inputs")).
Proof. vm_compute. reflexivity. Qed.

Example convert_svg_to_svg :
  (Part000.convert 5 (request_with (js "SVG")) svg_upload).1
  = Return {| code := 200;
              replyType := Some (js "image/svg+xml");
              replyHeaders := [];
              payload := StreamPayload BodyStream |}.
Proof. vm_compute. reflexivity. Qed.

(** The 6-byte upload: the request is never answered. *)
Example convert_tiny_file :
  (Server.convert 50 (request_with (js "png"))
     (upload_of (source_with [] [tiny_file] false))).1
  = Hang.
Proof. vm_compute. reflexivity. Qed.
